(** * ISEEC calculator: the scoring and classification engine of [app.py]

    A shallow embedding of the pure calculation functions of [app.py]
    (section "ФУНКЦИИ РАСЧЕТА ISEEC") and of the two criteria catalogs
    they read, followed by the properties of the engine.

    Numbers.  Python [int] is [Z].  Python [float] is modelled by the exact
    rationals [Q]: comparisons and the four operations are the exact ones,
    rounding is not modelled, and numeric results are compared with [==].
    The one non-finite value the engine produces on purpose,
    [float('inf')], is a constructor of its own ([Infinite]).  A division
    whose divisor is zero has no value ([None]); in Python it raises
    [ZeroDivisionError].  The square root inside [np.std] is a parameter
    of the model. *)

From Stdlib Require Import String ZArith QArith Qabs List Bool Lia Lqa.
From Stdlib Require Import Sorting.Sorted Sorting.Permutation.
Import ListNotations.
Open Scope Q_scope.

(** ** Python primitives *)

(** [a < b] on floats. *)
Definition Qltb (a b : Q) : bool := negb (Qle_bool b a).

(** [a / b]: no value when the divisor is zero. *)
Definition fdiv (a b : Q) : option Q :=
  if Qeq_bool b 0 then None else Some (a / b).

(** [min(a, b)] and [max(a, b)]: the first argument wins unless the second
    is strictly smaller (resp. larger). *)
Definition py_min (a b : Q) : Q := if Qltb b a then b else a.
Definition py_max (a b : Q) : Q := if Qltb a b then b else a.

(** The bind of the option monad, for the functions that divide. *)
Definition bind {A B : Type} (m : option A) (k : A -> option B) : option B :=
  match m with
  | Some a => k a
  | None => None
  end.

Notation "x <- m ;; k" := (bind m (fun x => k))
  (at level 61, m at next level, right associativity).

(** ** Criteria catalogs *)

Definition TRANSP_CRITERIA : list string := [
  "Годовой отчет опубликован на официальном сайте";
  "Финансовая отчетность заверена внешним аудитором";
  "Опубликован отчет об устойчивом развитии (ESG/КСО)";
  "Отчетность соответствует международным стандартам (GRI, SASB)";
  "Раскрыта структура собственности";
  "Раскрыт состав органов управления с биографиями";
  "Раскрыто вознаграждение топ-менеджмента";
  "Раздел существенных фактов обновляется регулярно";
  "На сайте указаны контакты для инвесторов, СМИ, соискателей";
  "Доступна англоязычная версия годового отчета или сайта"
]%string.

Definition INST_CRITERIA : list (string * Z) := [
  ("В структуре компании есть подразделение по коммуникациям", 10);
  ("Руководитель по коммуникациям входит в состав топ-менеджмента", 10);
  ("На сайте компании публикуются корпоративные новости и указаны контакты пресс-службы", 10);
  ("На сайте компании регулярно публикуются корпоративные новости — не реже 4 раз в месяц", 10);
  ("Компания ведет официальное сообщество в VK", 5);
  ("Компания ведет официальный Telegram-канал", 5);
  ("Коммуникационная стратегия компании публично доступна (на сайте или в годовом отчете)", 10);
  ("Предусмотрен механизм обратной связи: горячая линия, контакт-центр, форма обращений и др.", 10);
  ("Существуют антикризисные коммуникационные процедуры (для внутренней оценки)", 10);
  ("Руководитель по коммуникациям или компания состоит в профессиональной ассоциации (РАСО, АКМР, АКОС и др.)", 10);
  ("Награды или признание в области коммуникаций за последние 3 года", 10);
  ("KPI коммуникационного подразделения привязаны к бизнес-показателям компании (для внутренней оценки)", 10);
  ("Проводится регулярный (не реже раза в год) мониторинг репутации или восприятия стейкхолдерами", 10)
]%string%Z.

(** The [inst_scores] list the caller builds next to the check boxes: the
    second components of [INST_CRITERIA], in catalog order. *)
Definition inst_scores : list Z := map snd INST_CRITERIA.

(** ** Media stability *)

Definition calculate_i_media (val_i x_ref : Q) : option Q :=
  if Qle_bool x_ref 0 then Some 0
  else
    q <- fdiv val_i x_ref ;;
    let i_media := q * 100 in
    if Qltb i_media 0 then Some 0
    else if Qltb 100 i_media then Some 100
    else Some i_media.

(** The value of [calculate_v_vol]: a finite float, or [float('inf')]. *)
Inductive volatility : Type :=
| Finite (v : Q)
| Infinite.

(** [sum] of a list of floats, left to right from 0. *)
Definition fsum (l : list Q) : Q := fold_left Qplus l 0.

(** [np.mean]: the sum over the count.  NumPy does not raise on an empty
    list, it returns "not a number"; [None] stands for that here. *)
Definition np_mean (l : list Q) : option Q :=
  fdiv (fsum l) (inject_Z (Z.of_nat (length l))).

(** The threshold of [calculate_v_vol].  [x_ref] is [None] when the caller
    leaves it out; [x_ref and x_ref > 0] is false for [None] and for zero. *)
Definition noise_threshold (x_ref : option Q) : Q :=
  match x_ref with
  | Some x => if negb (Qeq_bool x 0) && Qltb 0 x then x * 0.01 else 1.0
  | None => 1.0
  end.

Section Volatility.

(** The square root of [np.std]. *)
Variable fsqrt : Q -> Q.

(** [np.std(l, ddof=0)]: the root of the mean squared distance to the
    mean, the divisor being the count. *)
Definition np_std (l : list Q) : option Q :=
  mu <- np_mean l ;;
  var <- np_mean (map (fun x => Qabs (x - mu) * Qabs (x - mu)) l) ;;
  Some (fsqrt var).

Definition calculate_v_vol (monthly_values : list Q) (x_ref : option Q)
  : option volatility :=
  if (length monthly_values <? 2)%nat then Some (Finite 0)
  else
    mu <- np_mean monthly_values ;;
    let threshold := noise_threshold x_ref in
    if Qltb mu threshold then Some Infinite
    else
      sigma <- np_std monthly_values ;;
      v_vol <- fdiv sigma mu ;;
      Some (Finite v_vol).

End Volatility.

Definition calculate_m_stab (i_media : Q) (v_vol : volatility) : option Q :=
  match v_vol with
  | Infinite => Some 0
  | Finite v => fdiv i_media (1 + v)
  end.

(** ** Reputation *)

Definition calculate_v_hr (rank total : Z) : option Q :=
  if (total <=? 1)%Z then Some 0
  else
    q <- fdiv (inject_Z (rank - 1)) (inject_Z (total - 1)) ;;
    let v_hr := (1 - q) * 100 in
    Some (py_max 0 (py_min 100 v_hr)).

(** [sum([10 if ind else 0 for ind in indicators])]. *)
Definition calculate_r_transp (indicators : list bool) : Z :=
  fold_left Z.add (map (fun ind : bool => if ind then 10 else 0)%Z indicators) 0%Z.

(** The [total] of the loop of [calculate_r_inst], before the cap. *)
Definition r_inst_total (indicators : list bool) (scores : list Z) : Z :=
  fold_left
    (fun total '(ind, score) => if ind : bool then total + score else total)%Z
    (combine indicators scores) 0%Z.

Definition calculate_r_inst (indicators : list bool) (scores : list Z) : Z :=
  let total := r_inst_total indicators scores in
  if (100 <? total)%Z then 100%Z else total.

Definition calculate_s_rep (v_hr r_transp r_inst : Q) : Q :=
  (v_hr + r_transp + r_inst) / 3.

(** ** Budget discipline *)

Definition get_k_budget (plan fact : Q) (has_approval : bool) : option Q :=
  if Qle_bool plan 0 then Some 0.0
  else
    q <- fdiv (fact - plan) plan ;;
    let deviation := q * 100 in
    if Qltb 10 deviation && negb has_approval then Some (-0.10)
    else Some 0.0.

(** ** Quality rating *)

(** The tuple (level, emoji, colour). *)
Definition rating : Type := (string * string * string)%type.

Definition very_high : rating := ("Очень высокий", "🟢", "#28a745")%string.
Definition high : rating := ("Высокий", "🟢", "#28a745")%string.
Definition medium : rating := ("Средний", "🟡", "#ffc107")%string.
Definition low : rating := ("Низкий", "🟠", "#fd7e14")%string.
Definition critically_low : rating := ("Критически низкий", "🔴", "#dc3545")%string.

Definition get_quality_rating (value : Q) : rating :=
  if Qltb 100 value then very_high
  else if Qle_bool 76 value then high
  else if Qle_bool 51 value then medium
  else if Qle_bool 26 value then low
  else critically_low.

(** ** Recommendations *)

(** The dictionary with the keys "area", "action", "potential" and
    "priority". *)
Record recommendation : Type := mk_recommendation {
  area : string;
  action : string;
  potential : Z;
  priority : Z
}.

(** The first loop: one entry per transparency criterion not done;
    [zip] stops at the shorter of its two lists. *)
Definition transp_gaps (transp_indicators : list bool) : list recommendation :=
  flat_map
    (fun '(done, label) =>
       if done : bool then []
       else [mk_recommendation "Транспарентность" label 10 2])
    (combine transp_indicators TRANSP_CRITERIA).

(** The second loop: one entry per institutional criterion not done. *)
Definition inst_gaps (inst_indicators : list bool) : list recommendation :=
  flat_map
    (fun '((label, score), done) =>
       if done : bool then []
       else [mk_recommendation "Институциональная зрелость" label score
               (if (score =? 10)%Z then 2 else 3)])
    (combine INST_CRITERIA inst_indicators).

Definition hr_recommendation : recommendation :=
  mk_recommendation "HR-бренд"
    "Принять участие в Рейтинге работодателей России (hh.ru)" 50 1.

Definition media_recommendation : recommendation :=
  mk_recommendation "Медийная активность"
    "Усилить присутствие в СМИ, увеличить количество публикаций" 30 1.

(** The list [recommendations] as it stands just before [sort]. *)
Definition collect_recommendations
    (transp_indicators inst_indicators : list bool) (v_hr m_stab : Q)
  : list recommendation :=
  transp_gaps transp_indicators
  ++ inst_gaps inst_indicators
  ++ (if Qltb v_hr 50 then [hr_recommendation] else [])
  ++ (if Qltb m_stab 50 then [media_recommendation] else []).

(** The key [lambda x: (x["priority"], -x["potential"])]. *)
Definition sort_key (x : recommendation) : Z * Z :=
  (priority x, (- potential x)%Z).

(** [k1 < k2] on pairs of integers: the first components decide unless
    they are equal. *)
Definition key_ltb (k1 k2 : Z * Z) : bool :=
  if (fst k1 =? fst k2)%Z then (snd k1 <? snd k2)%Z else (fst k1 <? fst k2)%Z.

Section StableSort.

Variable A : Type.
Variable key : A -> Z * Z.

(** [x] stood before every element of [l] in the unsorted list: it goes
    past the elements whose key is strictly smaller and no further. *)
Fixpoint insert_by_key (x : A) (l : list A) : list A :=
  match l with
  | [] => [x]
  | y :: l' =>
      if key_ltb (key y) (key x) then y :: insert_by_key x l'
      else x :: y :: l'
  end.

(** [list.sort(key=...)]: a stable sort; elements with equal keys keep
    the order they had. *)
Definition sort_by_key (l : list A) : list A :=
  fold_right insert_by_key [] l.

(** [a] may stand before [b]: the key of [b] is not strictly smaller. *)
Definition key_le (a b : A) : Prop := key_ltb (key b) (key a) = false.

(** The elements with the key [k]. *)
Definition same_key (k : Z * Z) (a : A) : bool :=
  ((fst (key a) =? fst k) && (snd (key a) =? snd k))%Z.

End StableSort.

Arguments insert_by_key {A} key x l.
Arguments sort_by_key {A} key l.
Arguments key_le {A} key a b.
Arguments same_key {A} key k a.

(** [inst_scores] is a parameter the body never reads. *)
Definition generate_recommendations
    (transp_indicators inst_indicators : list bool) (inst_scores : list Z)
    (v_hr m_stab : Q) : list recommendation :=
  let recommendations :=
    collect_recommendations transp_indicators inst_indicators v_hr m_stab in
  firstn 5 (sort_by_key sort_key recommendations).

(** ** Industry calibration *)

(** The value of an entry of [INDUSTRY_DATA]: a dictionary with the keys
    "x_ref", "k_risk", "category", "examples" and "okved_prefixes". *)
Record industry : Type := mk_industry {
  x_ref : Z;
  k_risk : Q;
  category : string;
  examples : string;
  okved_prefixes : list string
}.

(** The dictionary, as the list of its items in insertion order, which is
    the order [INDUSTRY_DATA.items()] yields them in. *)
Definition INDUSTRY_DATA : list (string * industry) := [
  ("Энергетика и ТЭК (нефть, газ, электроэнергетика)",
   mk_industry 60000 1.10 "high"
     "Газпром, Роснефть, Лукойл, Россети"
     ["06"; "09.1"; "35"]);
  ("Атомная энергетика",
   mk_industry 60000 1.10 "high"
     "Росатом"
     ["24.46"]);
  ("Банки и финансовые услуги",
   mk_industry 55000 1.0 "high"
     "Сбер, ВТБ, Альфа-Банк"
     ["64"; "65"; "66"]);
  ("Оборонно-промышленный комплекс",
   mk_industry 45000 1.10 "high"
     "Ростех, ОАК, ОСК"
     ["25.4"; "30.11"; "30.3"]);
  ("Телекоммуникации и IT",
   mk_industry 45000 1.0 "medium"
     "МТС, Мегафон, Ростелеком, Яндекс"
     ["61"; "62"; "63"]);
  ("Ритейл и электронная коммерция",
   mk_industry 40000 1.0 "medium"
     "X5 Group, Магнит, Ozon, Wildberries"
     ["47"]);
  ("Строительство и девелопмент",
   mk_industry 35000 1.0 "medium"
     "ПИК, Самолет, ЛСР, Эталон"
     ["41"; "42"; "43"]);
  ("Металлургия и горнодобыча",
   mk_industry 35000 1.10 "medium"
     "Норникель, НЛМК, Северсталь, АЛРОСА"
     ["07"; "08"; "24"]);
  ("Транспорт и логистика",
   mk_industry 30000 1.0 "medium"
     "РЖД, Аэрофлот, FESCO"
     ["49"; "50"; "51"; "52"]);
  ("Химическая промышленность",
   mk_industry 25000 1.10 "medium"
     "Сибур, ФосАгро, Уралхим"
     ["20"; "21"]);
  ("Машиностроение",
   mk_industry 25000 1.0 "medium"
     "КАМАЗ, ГАЗ, Трансмашхолдинг"
     ["28"; "29"]);
  ("Фармацевтика и медицина",
   mk_industry 25000 1.0 "medium"
     "Р-Фарм, Биокад, Герофарм"
     ["21"; "86"]);
  ("Агропромышленный комплекс",
   mk_industry 20000 1.0 "low"
     "Русагро, Черкизово, Мираторг"
     ["01"; "10"; "11"]);
  ("Табачная промышленность",
   mk_industry 15000 1.10 "low"
     EmptyString
     ["12"]);
  ("Алкогольная промышленность",
   mk_industry 15000 1.10 "low"
     EmptyString
     ["11.0"]);
  ("Другая отрасль",
   mk_industry 20000 1.0 "low"
     EmptyString
     [])
]%string.

(** The default industry. *)
Definition other_industry : string := "Другая отрасль".

(** [INDUSTRY_DATA[name]]: no value ([KeyError]) when the key is absent. *)
Definition industry_data (name : string) : option industry :=
  option_map snd (find (fun item => String.eqb (fst item) name) INDUSTRY_DATA).

(** [okved.startswith(prefix)]. *)
Definition startswith (okved prefix : string) : bool := String.prefix prefix okved.

(** The two nested loops return at the first industry, in dictionary
    order, one of whose prefixes starts the code. *)
Definition determine_industry_by_okved (okved : string) : string :=
  if String.eqb okved EmptyString then other_industry
  else
    match find (fun item => existsb (startswith okved)
                              (okved_prefixes (snd item)))
            INDUSTRY_DATA with
    | Some (industry, _) => industry
    | None => other_industry
    end.

(** ** Manual tracking, core index and multipliers *)

Definition calculate_manual_track_i_media (n_pos n_neg n_total : Z)
  : option Q :=
  if (n_total <=? 0)%Z then Some 0.0
  else
    q <- fdiv (inject_Z (n_pos - n_neg)) (inject_Z n_total) ;;
    let i_media := (1 + q) * 50 in
    Some (py_max 0.0 (py_min 100.0 i_media)).




Definition calculate_roi (revenue costs : Q) : option Q :=
  if Qle_bool costs 0 then Some 0.0
  else
    q <- fdiv (revenue - costs) costs ;;
    Some (q * 100).

Definition calculate_sroi (social_value costs : Q) : option Q :=
  if Qle_bool costs 0 then Some 0.0
  else
    q <- fdiv (social_value - costs) costs ;;
    Some (q * 100).

Definition get_k_roi (roi : Q) : Q := if Qltb 0 roi then 0.05 else 0.0.

Definition get_k_sroi (sroi : Q) : Q := if Qltb 0 sroi then 0.10 else 0.0.


Definition calculate_iseec_e (iseec_b k_eff : Q) : Q := iseec_b * k_eff.

(** The entry 'rating_e' of the stored results:
    [get_quality_rating(iseec_e)[0] if iseec_e else None], where [iseec_e]
    is [None] when the extended contour is off.  [None] and a float equal
    to zero are both false. *)
Definition rating_e (iseec_e : option Q) : option string :=
  match iseec_e with
  | Some e =>
      if negb (Qeq_bool e 0) then Some (fst (fst (get_quality_rating e)))
      else None
  | None => None
  end.

(** ** Reference definitions

    The formulas the functions are compared with, written independently
    of the code. *)

(** [clamp(v, lo, hi)]. *)
Definition clamp (v lo hi : Q) : Q :=
  if Qlt_le_dec v lo then lo else if Qlt_le_dec hi v then hi else v.

(** A function that divides returns the number [q]. *)
Definition returns (m : option Q) (q : Q) : Prop :=
  match m with
  | Some r => r == q
  | None => False
  end.

(** The points of the satisfied criteria: each indicator paired with the
    score at the same position. *)
Fixpoint satisfied_points (indicators : list bool) (scores : list Z) : Z :=
  match indicators, scores with
  | ind :: indicators', score :: scores' =>
      ((if ind then score else 0) + satisfied_points indicators' scores')%Z
  | _, _ => 0%Z
  end.

(** The total of a list of point values. *)
Definition total_points (scores : list Z) : Z := fold_right Z.add 0%Z scores.

(** The population mean and the population variance of a series: both
    divide by the number of observations. *)
Definition count (l : list Q) : Q := inject_Z (Z.of_nat (length l)).

Definition pop_mean (l : list Q) : Q := fold_right Qplus 0 l / count l.

Definition pop_variance (l : list Q) : Q :=
  fold_right Qplus 0
    (map (fun x => (x - pop_mean l) * (x - pop_mean l)) l) / count l.

(** One percent of the reference when there is one and it is positive,
    and 1 otherwise. *)
Definition one_percent_or_one (x_ref : option Q) : Q :=
  match x_ref with
  | Some x => if Qlt_le_dec 0 x then x / 100 else 1
  | None => 1
  end.

(** A square root that computes, to instantiate the parameter of
    [np_std]: the integer root of numerator times denominator, over the
    denominator, of the fraction in lowest terms. *)
Definition floor_sqrt (q : Q) : Q :=
  let r := Qred q in
  Z.sqrt (Qnum r * Zpos (Qden r)) # Qden r.

(** The order of the final list: ascending priority and, at equal
    priority, descending potential. *)
Definition ranked_before (r1 r2 : recommendation) : Prop :=
  (priority r1 < priority r2)%Z
  \/ (priority r1 = priority r2 /\ potential r2 <= potential r1)%Z.

(** The entries the two loops over the check lists produce. *)
Definition checklist_gaps (transp_indicators inst_indicators : list bool)
  : list recommendation :=
  transp_gaps transp_indicators ++ inst_gaps inst_indicators.

(** The entries added for weak subindices. *)
Definition systemic (v_hr m_stab : Q) : list recommendation :=
  (if Qltb v_hr 50 then [hr_recommendation] else [])
  ++ (if Qltb m_stab 50 then [media_recommendation] else []).

(** The place of a rating on the scale, 0 for the lowest band, read
    from its level. *)
Definition rating_rank (r : rating) : nat :=
  let level := fst (fst r) in
  if String.eqb level (fst (fst very_high)) then 4
  else if String.eqb level (fst (fst high)) then 3
  else if String.eqb level (fst (fst medium)) then 2
  else if String.eqb level (fst (fst low)) then 1
  else 0.

(** Every code prefix of the registry. *)
Definition all_prefixes : list string :=
  flat_map (fun item => okved_prefixes (snd item)) INDUSTRY_DATA.

(** ** Comparisons and division *)

Lemma Qltb_lt (a b : Q) : Qltb a b = true <-> a < b.
Proof.
  unfold Qltb. rewrite negb_true_iff, <- not_true_iff_false, Qle_bool_iff.
  split; [apply Qnot_le_lt | apply Qlt_not_le].
Qed.

Lemma Qltb_ge (a b : Q) : Qltb a b = false <-> b <= a.
Proof.
  unfold Qltb. rewrite negb_false_iff. apply Qle_bool_iff.
Qed.

Lemma Qle_bool_gt (a b : Q) : Qle_bool a b = false <-> b < a.
Proof.
  rewrite <- not_true_iff_false, Qle_bool_iff.
  split; [apply Qnot_le_lt | apply Qlt_not_le].
Qed.

Lemma fdiv_nonzero (a b : Q) : ~ b == 0 -> fdiv a b = Some (a / b).
Proof.
  intros Hb. unfold fdiv. destruct (Qeq_bool b 0) eqn:E; [|reflexivity].
  apply Qeq_bool_iff in E. contradiction.
Qed.

Lemma fdiv_zero (a b : Q) : b == 0 -> fdiv a b = None.
Proof.
  intros Hb. unfold fdiv. apply Qeq_bool_iff in Hb. now rewrite Hb.
Qed.

(** Case analysis on the comparisons of the code, leaving their meaning
    in the context. *)
Ltac by_cases :=
  repeat match goal with
    | |- context [Qltb ?a ?b] =>
        let E := fresh "E" in
        destruct (Qltb a b) eqn:E;
        [apply Qltb_lt in E | apply Qltb_ge in E]
    | |- context [Qle_bool ?a ?b] =>
        let E := fresh "E" in
        destruct (Qle_bool a b) eqn:E;
        [apply Qle_bool_iff in E | apply Qle_bool_gt in E]
    | |- context [Qlt_le_dec ?a ?b] => destruct (Qlt_le_dec a b)
    end.

Lemma clamp_bounds (v lo hi : Q) : lo <= hi -> lo <= clamp v lo hi <= hi.
Proof.
  intros H. unfold clamp. by_cases; lra.
Qed.

(** ** Media presence: [calculate_i_media] *)

Lemma calculate_i_media_eq (val_i x_ref : Q) :
  0 < x_ref ->
  exists r, calculate_i_media val_i x_ref = Some r
            /\ r == clamp (val_i / x_ref * 100) 0 100.
Proof.
  intros Hx. unfold calculate_i_media.
  destruct (Qle_bool x_ref 0) eqn:E.
  - apply Qle_bool_iff in E. lra.
  - rewrite fdiv_nonzero by lra. cbn [bind]. unfold clamp.
    by_cases; eexists; (split; [reflexivity|]); lra.
Qed.

(** C8.  With a positive reference the result is the ratio in percent
    clamped to [0,100], hence in [0,100]; with a reference that is zero or
    negative the result is 0 and the division (which would have no value at
    zero) is not reached. *)
Theorem calculate_i_media_clamped (val_i x_ref : Q) :
  (0 < x_ref ->
   exists r, calculate_i_media val_i x_ref = Some r
             /\ r == clamp (val_i / x_ref * 100) 0 100
             /\ 0 <= r <= 100)
  /\ (x_ref <= 0 -> calculate_i_media val_i x_ref = Some 0).
Proof.
  split.
  - intros Hx. destruct (calculate_i_media_eq val_i x_ref Hx) as (r & Hr & Hc).
    exists r. repeat split; trivial; rewrite Hc; apply clamp_bounds; lra.
  - intros Hx. unfold calculate_i_media.
    apply Qle_bool_iff in Hx. now rewrite Hx.
Qed.

Lemma calculate_i_media_clamped_witness :
  (exists r, calculate_i_media 45000 45000 = Some r
             /\ r == clamp (45000 / 45000 * 100) 0 100
             /\ 0 <= r <= 100)
  /\ calculate_i_media 45000 0 = Some 0.
Proof.
  split.
  - apply (proj1 (calculate_i_media_clamped 45000 45000)). reflexivity.
  - apply (proj2 (calculate_i_media_clamped 45000 0)). discriminate.
Defined.

(** ** Employer brand: [calculate_v_hr] *)

Lemma py_clamp_eq (v : Q) : py_max 0 (py_min 100 v) == clamp v 0 100.
Proof.
  unfold py_min. by_cases; unfold py_max, clamp; by_cases; lra.
Qed.

Lemma calculate_v_hr_eq (rank total : Z) :
  (1 < total)%Z ->
  calculate_v_hr rank total =
    Some (py_max 0 (py_min 100
            ((1 - inject_Z (rank - 1) / inject_Z (total - 1)) * 100))).
Proof.
  intros Ht. unfold calculate_v_hr.
  destruct (total <=? 1)%Z eqn:E; [apply Z.leb_le in E; lia|].
  rewrite fdiv_nonzero; [reflexivity|].
  change 0 with (inject_Z 0). rewrite inject_Z_injective. lia.
Qed.

(** C9.  With at most one participant the result is 0; with more it is
    (1 - (r-1)/(n-1)) * 100 clamped to [0,100]; rank 45 of 700 gives
    65500/699, which is 93.7 to one decimal place. *)
Theorem calculate_v_hr_percentile (rank total : Z) :
  ((total <= 1)%Z -> calculate_v_hr rank total = Some 0)
  /\ ((1 < total)%Z ->
      exists r, calculate_v_hr rank total = Some r
                /\ r == clamp ((1 - inject_Z (rank - 1) / inject_Z (total - 1)) * 100) 0 100
                /\ 0 <= r <= 100)
  /\ (exists r, calculate_v_hr 45 700 = Some r
                /\ r == (1 - 44 / 699) * 100
                /\ 93.70 <= r < 93.71).
Proof.
  split; [|split].
  - intros Ht. unfold calculate_v_hr. apply Z.leb_le in Ht. now rewrite Ht.
  - intros Ht. rewrite (calculate_v_hr_eq rank total Ht).
    eexists. split; [reflexivity|]. rewrite py_clamp_eq.
    split; [reflexivity | apply clamp_bounds; lra].
  - eexists. split; [reflexivity|]. vm_compute. intuition discriminate.
Qed.

Lemma calculate_v_hr_percentile_witness :
  calculate_v_hr 1 1 = Some 0
  /\ (exists r, calculate_v_hr 45 700 = Some r
                /\ r == clamp ((1 - inject_Z (45 - 1) / inject_Z (700 - 1)) * 100) 0 100
                /\ 0 <= r <= 100).
Proof.
  split.
  - apply (proj1 (calculate_v_hr_percentile 1 1)). lia.
  - apply (proj1 (proj2 (calculate_v_hr_percentile 45 700))). lia.
Defined.

(** ** Budget discipline: [get_k_budget] *)

Lemma get_k_budget_eq (plan fact : Q) (has_approval : bool) :
  0 < plan ->
  get_k_budget plan fact has_approval =
    if Qltb 10 ((fact - plan) / plan * 100) && negb has_approval
    then Some (-0.10) else Some 0.0.
Proof.
  intros Hp. unfold get_k_budget.
  destruct (Qle_bool plan 0) eqn:E; [apply Qle_bool_iff in E; lra|].
  rewrite fdiv_nonzero by lra. reflexivity.
Qed.

(** C6.  A plan that is zero or negative gives 0.  Otherwise the result is
    -0.10 exactly when the deviation (fact - plan) / plan * 100 is above 10
    and no approval was recorded, and 0 in every other case; with an
    approval the result is 0 whatever the deviation.  430/450 without
    approval gives 0, 430/480 without approval gives -0.10. *)
Theorem get_k_budget_penalty (plan fact : Q) (has_approval : bool) :
  (plan <= 0 -> returns (get_k_budget plan fact has_approval) 0)
  /\ (0 < plan ->
      let deviation := (fact - plan) / plan * 100 in
      (10 < deviation /\ has_approval = false ->
       returns (get_k_budget plan fact has_approval) (-0.10))
      /\ (~ (10 < deviation /\ has_approval = false) ->
          returns (get_k_budget plan fact has_approval) 0))
  /\ returns (get_k_budget plan fact true) 0
  /\ returns (get_k_budget 430 450 false) 0
  /\ returns (get_k_budget 430 480 false) (-0.10).
Proof.
  split; [|split; [|split; [|split]]].
  - intros Hp. unfold get_k_budget. apply Qle_bool_iff in Hp. rewrite Hp.
    reflexivity.
  - intros Hp deviation. subst deviation. rewrite (get_k_budget_eq _ _ _ Hp).
    split.
    + intros [Hd ->]. apply Qltb_lt in Hd. rewrite Hd. reflexivity.
    + intros Hn. destruct (Qltb 10 _) eqn:E; [|reflexivity].
      apply Qltb_lt in E. destruct has_approval; [reflexivity|].
      exfalso. apply Hn. split; [exact E | reflexivity].
  - destruct (Qlt_le_dec 0 plan) as [Hp|Hp].
    + rewrite (get_k_budget_eq _ _ _ Hp), andb_false_r. reflexivity.
    + unfold get_k_budget. apply Qle_bool_iff in Hp. rewrite Hp. reflexivity.
  - reflexivity.
  - reflexivity.
Qed.

Lemma get_k_budget_penalty_witness :
  returns (get_k_budget 0 450 false) 0
  /\ returns (get_k_budget 430 480 false) (-0.10)
  /\ returns (get_k_budget 430 480 true) 0.
Proof.
  split; [|split].
  - apply (proj1 (get_k_budget_penalty 0 450 false)). discriminate.
  - apply (proj1 (proj2 (get_k_budget_penalty 430 480 false))).
    + reflexivity.
    + split; reflexivity.
  - apply (proj1 (proj2 (get_k_budget_penalty 430 480 true))).
    + reflexivity.
    + intros [_ H]. discriminate H.
Defined.

(** ** Quality rating: [get_quality_rating] *)

Lemma rating_levels_distinct :
  NoDup (map (fun r : rating => fst (fst r))
           [very_high; high; medium; low; critically_low]).
Proof.
  repeat constructor; cbn; intuition discriminate.
Qed.

(** C2.  Every score gets one of the five ratings; the conditions are tried
    from the top and the first that holds decides: above 100 "Очень
    высокий" (very high), else from 76 "Высокий" (high), else from 51
    "Средний" (medium), else from 26 "Низкий" (low), else "Критически
    низкий" (critically low).  At the boundaries: 100.0 is high, 100.0001
    very high, 76.0 high, 75.9999 medium. *)
Theorem get_quality_rating_bands (value : Q) :
  In (get_quality_rating value) [very_high; high; medium; low; critically_low]
  /\ (100 < value -> get_quality_rating value = very_high)
  /\ (value <= 100 -> 76 <= value -> get_quality_rating value = high)
  /\ (value < 76 -> 51 <= value -> get_quality_rating value = medium)
  /\ (value < 51 -> 26 <= value -> get_quality_rating value = low)
  /\ (value < 26 -> get_quality_rating value = critically_low)
  /\ get_quality_rating 100.0 = high
  /\ get_quality_rating 100.0001 = very_high
  /\ get_quality_rating 76.0 = high
  /\ get_quality_rating 75.9999 = medium.
Proof.
  repeat split; try reflexivity; unfold get_quality_rating.
  - by_cases; cbn; auto 6.
  - intros. by_cases; trivial; lra.
  - intros. by_cases; trivial; lra.
  - intros. by_cases; trivial; lra.
  - intros. by_cases; trivial; lra.
  - intros. by_cases; trivial; lra.
Qed.

Lemma get_quality_rating_bands_witness :
  get_quality_rating 120 = very_high
  /\ get_quality_rating 80 = high
  /\ get_quality_rating 75.5 = medium
  /\ get_quality_rating 30 = low
  /\ get_quality_rating (-3) = critically_low.
Proof.
  split; [|split; [|split; [|split]]].
  - apply (proj1 (proj2 (get_quality_rating_bands 120))). reflexivity.
  - apply (proj1 (proj2 (proj2 (get_quality_rating_bands 80))));
      [discriminate | discriminate].
  - apply (proj1 (proj2 (proj2 (proj2 (get_quality_rating_bands 75.5)))));
      [reflexivity | discriminate].
  - apply (proj1 (proj2 (proj2 (proj2 (proj2 (get_quality_rating_bands 30))))));
      [reflexivity | discriminate].
  - apply (proj1 (proj2 (proj2 (proj2 (proj2 (proj2
             (get_quality_rating_bands (-3)))))))).
    reflexivity.
Defined.

(** ** Check lists: [calculate_r_transp] and [calculate_r_inst] *)

Lemma fold_left_Zadd_shift (l : list Z) (a : Z) :
  fold_left Z.add l a = (a + fold_left Z.add l 0)%Z.
Proof.
  revert a. induction l as [|x l IH]; intros a; cbn.
  - lia.
  - rewrite (IH (a + x)%Z), (IH x). lia.
Qed.

Lemma calculate_r_transp_cons (ind : bool) (l : list bool) :
  calculate_r_transp (ind :: l) =
    ((if ind then 10 else 0) + calculate_r_transp l)%Z.
Proof.
  unfold calculate_r_transp. cbn [map fold_left].
  now rewrite fold_left_Zadd_shift.
Qed.

Lemma calculate_r_transp_count (l : list bool) :
  calculate_r_transp l = (10 * Z.of_nat (count_occ bool_dec l true))%Z.
Proof.
  induction l as [|ind l IH]; [reflexivity|].
  rewrite calculate_r_transp_cons, IH. destruct ind; cbn [count_occ].
  - destruct (bool_dec true true); [lia | congruence].
  - destruct (bool_dec false true); [discriminate | lia].
Qed.

Lemma calculate_r_transp_range (l : list bool) :
  (0 <= calculate_r_transp l <= 10 * Z.of_nat (length l))%Z.
Proof.
  rewrite calculate_r_transp_count.
  pose proof (count_occ_bound bool_dec true l). lia.
Qed.

(** C10.  No length check and no cap: for any list the result is ten times
    the number of [True] entries, so more than ten of them give more than
    100 (eleven give 110); the result is in [0,100] when the list has the
    length of the catalog. *)
Theorem calculate_r_transp_unchecked :
  (forall l, calculate_r_transp l
             = (10 * Z.of_nat (count_occ bool_dec l true))%Z)
  /\ (forall l, (10 < count_occ bool_dec l true)%nat ->
                (100 < calculate_r_transp l)%Z)
  /\ (length TRANSP_CRITERIA < length (repeat true 11))%nat
  /\ calculate_r_transp (repeat true 11) = 110%Z
  /\ (forall l, length l = length TRANSP_CRITERIA ->
                (0 <= calculate_r_transp l <= 100)%Z).
Proof.
  split; [|split; [|split; [|split]]].
  - exact calculate_r_transp_count.
  - intros l Hl. rewrite calculate_r_transp_count. lia.
  - cbn. lia.
  - reflexivity.
  - intros l Hl. pose proof (calculate_r_transp_range l) as H.
    rewrite Hl in H. cbn in H. lia.
Qed.

Lemma calculate_r_transp_unchecked_witness :
  (100 < calculate_r_transp (repeat true 12))%Z
  /\ (0 <= calculate_r_transp
             [true; false; true; true; false; true; true; true; false; true]
      <= 100)%Z.
Proof.
  split.
  - apply (proj1 (proj2 calculate_r_transp_unchecked)). cbn. lia.
  - apply (proj2 (proj2 (proj2 (proj2 calculate_r_transp_unchecked)))).
    reflexivity.
Defined.

Lemma r_inst_total_shift (indicators : list bool) (scores : list Z) (a : Z) :
  fold_left
    (fun total '(ind, score) => if ind : bool then total + score else total)%Z
    (combine indicators scores) a
  = (a + satisfied_points indicators scores)%Z.
Proof.
  revert scores a.
  induction indicators as [|ind indicators IH]; intros [|score scores] a;
    cbn; try lia.
  rewrite IH. destruct ind; lia.
Qed.

Lemma r_inst_total_points (indicators : list bool) (scores : list Z) :
  r_inst_total indicators scores = satisfied_points indicators scores.
Proof.
  unfold r_inst_total. now rewrite r_inst_total_shift.
Qed.

Lemma satisfied_points_range (indicators : list bool) (scores : list Z) :
  Forall (fun score => 0 <= score)%Z scores ->
  (0 <= satisfied_points indicators scores <= total_points scores)%Z.
Proof.
  intros Hs. revert indicators.
  induction Hs as [|score scores Hscore _ IH]; intros [|ind indicators];
    cbn [satisfied_points total_points fold_right]; try lia.
  - specialize (IH []). cbn [satisfied_points] in IH.
    fold (total_points scores). lia.
  - specialize (IH indicators). fold (total_points scores).
    destruct ind; lia.
Qed.

Lemma inst_scores_nonneg : Forall (fun score => 0 <= score)%Z inst_scores.
Proof.
  repeat constructor; discriminate.
Qed.

Lemma calculate_r_inst_min (indicators : list bool) (scores : list Z) :
  calculate_r_inst indicators scores
  = Z.min (r_inst_total indicators scores) 100.
Proof.
  unfold calculate_r_inst. cbv zeta.
  destruct (100 <? r_inst_total indicators scores)%Z eqn:E.
  - apply Z.ltb_lt in E. lia.
  - apply Z.ltb_ge in E. lia.
Qed.

Lemma calculate_r_inst_range (indicators : list bool) (scores : list Z) :
  Forall (fun score => 0 <= score)%Z scores ->
  (0 <= calculate_r_inst indicators scores <= 100)%Z.
Proof.
  intros Hs. rewrite calculate_r_inst_min, r_inst_total_points.
  pose proof (satisfied_points_range indicators scores Hs). lia.
Qed.

(** The vector with every institutional criterion satisfied. *)
Lemma all_satisfied_total :
  length (repeat true 13) = length INST_CRITERIA
  /\ r_inst_total (repeat true 13) inst_scores = 120%Z.
Proof.
  split; reflexivity.
Qed.

(** C1, as the code has it.  The point values of [INST_CRITERIA] add up to
    120, not 100.  For every indicator vector the uncapped sum is between 0
    and 120 and [calculate_r_inst] returns the smaller of that sum and 100:
    the sum itself when it is at most 100, and 100 when it is larger. *)
Theorem calculate_r_inst_cap (indicators : list bool) :
  total_points inst_scores = 120%Z
  /\ (0 <= r_inst_total indicators inst_scores <= 120)%Z
  /\ calculate_r_inst indicators inst_scores
     = Z.min (r_inst_total indicators inst_scores) 100
  /\ ((r_inst_total indicators inst_scores <= 100)%Z ->
      calculate_r_inst indicators inst_scores
      = r_inst_total indicators inst_scores)
  /\ ((100 < r_inst_total indicators inst_scores)%Z ->
      calculate_r_inst indicators inst_scores = 100%Z).
Proof.
  split; [reflexivity|]. split; [|split; [|split]].
  - rewrite r_inst_total_points.
    apply (satisfied_points_range indicators inst_scores inst_scores_nonneg).
  - apply calculate_r_inst_min.
  - intros H. rewrite calculate_r_inst_min. lia.
  - intros H. rewrite calculate_r_inst_min. lia.
Qed.

Lemma calculate_r_inst_cap_witness :
  calculate_r_inst (repeat true 10) inst_scores
  = r_inst_total (repeat true 10) inst_scores
  /\ calculate_r_inst (repeat true 13) inst_scores = 100%Z.
Proof.
  split.
  - apply (proj1 (proj2 (proj2 (proj2 (calculate_r_inst_cap (repeat true 10)))))).
    vm_compute. discriminate.
  - apply (proj2 (proj2 (proj2 (proj2 (calculate_r_inst_cap (repeat true 13)))))).
    reflexivity.
Defined.

(** C1 as stated fails: with all thirteen criteria satisfied the uncapped
    sum is 120, above 100, and [calculate_r_inst] returns 100, not the
    sum. *)
Lemma calculate_r_inst_cap_is_effective :
  length (repeat true 13) = length INST_CRITERIA
  /\ total_points inst_scores <> 100%Z
  /\ ~ (r_inst_total (repeat true 13) inst_scores <= 100)%Z
  /\ calculate_r_inst (repeat true 13) inst_scores
     <> r_inst_total (repeat true 13) inst_scores.
Proof.
  split; [reflexivity|]. split; [discriminate|]. split.
  - vm_compute. intros H. apply H. reflexivity.
  - discriminate.
Qed.

(** ** Reputation: [calculate_s_rep] *)

Lemma calculate_s_rep_mean (v_hr r_transp r_inst : Q) :
  3 * calculate_s_rep v_hr r_transp r_inst == v_hr + r_transp + r_inst.
Proof.
  unfold calculate_s_rep. field.
Qed.

(** C7.  A transparency vector of the length of its catalog gives a value
    in [0,100]; an institutional vector of the length of its catalog, with
    the catalog's point values, gives a value in [0,100], and gives 100
    when the sum before the cap is above 100, which does occur; for three
    inputs in [0,100], [calculate_s_rep] is their mean (three times the
    result is their sum) and lies in [0,100]. *)
Theorem checklist_scores_bounded :
  (forall l, length l = length TRANSP_CRITERIA ->
             (0 <= calculate_r_transp l <= 100)%Z)
  /\ (forall l, length l = length INST_CRITERIA ->
                (0 <= calculate_r_inst l inst_scores <= 100)%Z
                /\ ((100 < r_inst_total l inst_scores)%Z ->
                    calculate_r_inst l inst_scores = 100%Z))
  /\ (exists l, length l = length INST_CRITERIA
                /\ (100 < r_inst_total l inst_scores)%Z)
  /\ (forall v_hr r_transp r_inst,
        0 <= v_hr <= 100 -> 0 <= r_transp <= 100 -> 0 <= r_inst <= 100 ->
        3 * calculate_s_rep v_hr r_transp r_inst == v_hr + r_transp + r_inst
        /\ 0 <= calculate_s_rep v_hr r_transp r_inst <= 100).
Proof.
  split; [|split; [|split]].
  - intros l Hl. pose proof (calculate_r_transp_range l) as H.
    rewrite Hl in H. cbn in H. lia.
  - intros l _. split.
    + apply calculate_r_inst_range, inst_scores_nonneg.
    + intros H. rewrite calculate_r_inst_min. lia.
  - exists (repeat true 13). split; reflexivity.
  - intros v_hr r_transp r_inst Hv Ht Hi.
    pose proof (calculate_s_rep_mean v_hr r_transp r_inst) as Hm.
    split; [exact Hm | lra].
Qed.

Lemma checklist_scores_bounded_witness :
  (0 <= calculate_r_transp (repeat true 10) <= 100)%Z
  /\ ((0 <= calculate_r_inst (repeat true 13) inst_scores <= 100)%Z
      /\ calculate_r_inst (repeat true 13) inst_scores = 100%Z)
  /\ 0 <= calculate_s_rep 93.7 80 100 <= 100.
Proof.
  split; [|split].
  - apply (proj1 checklist_scores_bounded). reflexivity.
  - destruct (proj1 (proj2 checklist_scores_bounded) (repeat true 13))
      as [Hr Hc]; [reflexivity|].
    split; [exact Hr | apply Hc; reflexivity].
  - apply (proj2 (proj2 (proj2 checklist_scores_bounded)) 93.7 80 100);
      split; discriminate.
Defined.

(** ** Media stability: [calculate_m_stab] *)

Lemma calculate_m_stab_finite (i_media v : Q) :
  0 <= v -> calculate_m_stab i_media (Finite v) = Some (i_media / (1 + v)).
Proof.
  intros Hv. cbn. apply fdiv_nonzero. lra.
Qed.

Lemma damping_antitone (i_media v1 v2 : Q) :
  0 <= i_media -> 0 <= v1 -> v1 <= v2 ->
  i_media / (1 + v2) <= i_media / (1 + v1).
Proof.
  intros Hi H1 H12.
  apply Qle_shift_div_l; [lra|].
  setoid_replace (i_media / (1 + v2) * (1 + v1))
    with (i_media * (1 + v1) / (1 + v2)) by (field; lra).
  apply Qle_shift_div_r; [lra|]. nra.
Qed.

Lemma damping_positive (i_media v : Q) :
  0 < i_media -> 0 <= v -> 0 < i_media / (1 + v).
Proof.
  intros Hi Hv. apply Qlt_shift_div_l; lra.
Qed.

Lemma damping_small (i_media eps v : Q) :
  0 < i_media -> 0 < eps -> i_media / eps <= v -> i_media / (1 + v) < eps.
Proof.
  intros Hi He Hv.
  assert (Hq : 0 < i_media / eps) by (apply Qlt_shift_div_l; lra).
  apply Qlt_shift_div_r; [lra|].
  assert (Hm : i_media == i_media / eps * eps) by (field; lra).
  rewrite Hm at 1. set (q := i_media / eps) in *. nra.
Qed.

(** C4, as the code has it.  With the infinity sentinel the result is 0;
    with volatility exactly 0 it is [i_media]; for a fixed [i_media] that is
    not negative, a larger volatility (among the non-negative finite ones)
    never gives a larger result; for [i_media] = 0 the result is 0 at every
    volatility; for a positive [i_media] the result stays above 0 and falls
    below any positive bound once the volatility is large enough. *)
Theorem calculate_m_stab_damping :
  (forall i_media, calculate_m_stab i_media Infinite = Some 0)
  /\ (forall i_media, returns (calculate_m_stab i_media (Finite 0)) i_media)
  /\ (forall i_media v1 v2,
        0 <= i_media -> 0 <= v1 -> v1 <= v2 ->
        exists r1 r2,
          calculate_m_stab i_media (Finite v1) = Some r1
          /\ calculate_m_stab i_media (Finite v2) = Some r2
          /\ r2 <= r1)
  /\ (forall v, 0 <= v -> returns (calculate_m_stab 0 (Finite v)) 0)
  /\ (forall i_media v,
        0 < i_media -> 0 <= v ->
        exists r, calculate_m_stab i_media (Finite v) = Some r /\ 0 < r)
  /\ (forall i_media eps,
        0 < i_media -> 0 < eps ->
        exists bound, 0 <= bound /\
          forall v, bound <= v ->
            exists r, calculate_m_stab i_media (Finite v) = Some r
                      /\ 0 < r < eps).
Proof.
  split; [|split; [|split; [|split; [|split]]]].
  - reflexivity.
  - intros i_media. rewrite calculate_m_stab_finite by lra.
    cbn [returns]. field.
  - intros i_media v1 v2 Hi H1 H12.
    exists (i_media / (1 + v1)), (i_media / (1 + v2)).
    rewrite !calculate_m_stab_finite by lra.
    repeat split. now apply damping_antitone.
  - intros v Hv. rewrite calculate_m_stab_finite by exact Hv.
    cbn [returns]. field. lra.
  - intros i_media v Hi Hv. exists (i_media / (1 + v)).
    rewrite calculate_m_stab_finite by exact Hv.
    split; [reflexivity | now apply damping_positive].
  - intros i_media eps Hi He. exists (i_media / eps).
    assert (Hb : 0 < i_media / eps) by (apply Qlt_shift_div_l; lra).
    split; [lra|]. intros v Hv. exists (i_media / (1 + v)).
    rewrite calculate_m_stab_finite by lra.
    split; [reflexivity|]. split.
    + apply damping_positive; lra.
    + now apply damping_small.
Qed.

Lemma calculate_m_stab_damping_witness :
  (exists r1 r2,
      calculate_m_stab 100 (Finite 0.2) = Some r1
      /\ calculate_m_stab 100 (Finite 0.5) = Some r2
      /\ r2 <= r1)
  /\ returns (calculate_m_stab 0 (Finite 3)) 0
  /\ (exists r, calculate_m_stab 100 (Finite 3) = Some r /\ 0 < r)
  /\ (exists bound, 0 <= bound /\
        forall v, bound <= v ->
          exists r, calculate_m_stab 100 (Finite v) = Some r /\ 0 < r < 0.5).
Proof.
  split; [|split; [|split]].
  - apply (proj1 (proj2 (proj2 calculate_m_stab_damping)) 100 0.2 0.5);
      discriminate.
  - apply (proj1 (proj2 (proj2 (proj2 calculate_m_stab_damping))) 3).
    discriminate.
  - apply (proj1 (proj2 (proj2 (proj2 (proj2 calculate_m_stab_damping))))
             100 3); [reflexivity | discriminate].
  - apply (proj2 (proj2 (proj2 (proj2 (proj2 calculate_m_stab_damping))))
             100 0.5); reflexivity.
Defined.

(** C4 as stated fails.  With [i_media] = 0 the result is 0 already at
    volatility 1, so 0 is reached; with [i_media] = -10 the result rises
    from -10 at volatility 0 to -5 at volatility 1. *)
Lemma calculate_m_stab_not_damping :
  returns (calculate_m_stab 0 (Finite 1)) 0
  /\ (exists r1 r2,
        calculate_m_stab (-10) (Finite 0) = Some r1
        /\ calculate_m_stab (-10) (Finite 1) = Some r2
        /\ r1 == -10 /\ r2 == -5 /\ r1 < r2).
Proof.
  split; [reflexivity|].
  do 2 eexists. repeat split; reflexivity.
Qed.

(** ** Volatility: [calculate_v_vol] *)

Lemma fsum_shift (l : list Q) (a : Q) :
  fold_left Qplus l a == a + fold_right Qplus 0 l.
Proof.
  revert a. induction l as [|x l IH]; intros a; cbn.
  - lra.
  - rewrite IH. lra.
Qed.

Lemma fsum_total (l : list Q) : fsum l == fold_right Qplus 0 l.
Proof.
  unfold fsum. rewrite fsum_shift. lra.
Qed.

Lemma total_map_ext (f g : Q -> Q) (l : list Q) :
  (forall x, f x == g x) ->
  fold_right Qplus 0 (map f l) == fold_right Qplus 0 (map g l).
Proof.
  intros Hfg. induction l as [|x l IH]; cbn; [reflexivity|].
  now rewrite IH, Hfg.
Qed.

Lemma count_positive (l : list Q) : l <> [] -> 0 < count l.
Proof.
  intros Hl. unfold count. change 0 with (inject_Z 0).
  rewrite <- Zlt_Qlt. destruct l; [contradiction | cbn; lia].
Qed.

Lemma np_mean_value (l : list Q) :
  l <> [] -> exists mu, np_mean l = Some mu /\ mu == pop_mean l.
Proof.
  intros Hl. pose proof (count_positive l Hl) as Hc.
  exists (fsum l / count l). split.
  - unfold np_mean. fold (count l). apply fdiv_nonzero. lra.
  - unfold pop_mean. now rewrite fsum_total.
Qed.

Lemma noise_threshold_value (x_ref : option Q) :
  noise_threshold x_ref == one_percent_or_one x_ref.
Proof.
  destruct x_ref as [x|]; unfold noise_threshold, one_percent_or_one;
    [|reflexivity].
  destruct (Qeq_bool x 0) eqn:E; cbn [negb andb].
  - apply Qeq_bool_iff in E. by_cases; [lra | reflexivity].
  - by_cases; try lra; reflexivity.
Qed.

Lemma one_percent_or_one_positive (x_ref : option Q) :
  0 < one_percent_or_one x_ref.
Proof.
  destruct x_ref as [x|]; unfold one_percent_or_one; [|reflexivity].
  by_cases; [|reflexivity]. apply Qlt_shift_div_l; lra.
Qed.

Section VolatilityFacts.

Variable fsqrt : Q -> Q.
Hypothesis fsqrt_value : forall a b, a == b -> fsqrt a == fsqrt b.

Lemma np_std_value (l : list Q) :
  l <> [] ->
  exists sigma, np_std fsqrt l = Some sigma
                /\ sigma == fsqrt (pop_variance l).
Proof.
  intros Hl. unfold np_std.
  destruct (np_mean_value l Hl) as (mu & -> & Hmu). cbn [bind].
  set (sq := map _ l).
  assert (Hsq : sq <> []) by (subst sq; destruct l; [contradiction | discriminate]).
  destruct (np_mean_value sq Hsq) as (var & -> & Hvar). cbn [bind].
  eexists. split; [reflexivity|]. apply fsqrt_value.
  rewrite Hvar. unfold pop_mean, pop_variance, count. subst sq.
  rewrite length_map. apply Qmult_comp; [|reflexivity].
  apply total_map_ext. intros x. rewrite Hmu.
  fold (pop_mean l). set (d := x - pop_mean l).
  rewrite <- Qabs_Qmult. apply Qabs_pos. nra.
Qed.

Lemma calculate_v_vol_short (l : list Q) (x_ref : option Q) :
  (length l < 2)%nat -> calculate_v_vol fsqrt l x_ref = Some (Finite 0).
Proof.
  intros Hl. unfold calculate_v_vol. apply Nat.ltb_lt in Hl. now rewrite Hl.
Qed.

Lemma calculate_v_vol_weak (l : list Q) (x_ref : option Q) :
  (2 <= length l)%nat -> pop_mean l < one_percent_or_one x_ref ->
  calculate_v_vol fsqrt l x_ref = Some Infinite.
Proof.
  intros Hl Hmu. unfold calculate_v_vol.
  destruct (length l <? 2)%nat eqn:E; [apply Nat.ltb_lt in E; lia|].
  assert (Hne : l <> []) by (destruct l; [cbn in Hl; lia | discriminate]).
  destruct (np_mean_value l Hne) as (mu & -> & Hm). cbn [bind].
  destruct (Qltb mu (noise_threshold x_ref)) eqn:Et; [reflexivity|].
  apply Qltb_ge in Et. rewrite noise_threshold_value, Hm in Et. lra.
Qed.

Lemma calculate_v_vol_ratio (l : list Q) (x_ref : option Q) :
  (2 <= length l)%nat -> one_percent_or_one x_ref <= pop_mean l ->
  exists v, calculate_v_vol fsqrt l x_ref = Some (Finite v)
            /\ v == fsqrt (pop_variance l) / pop_mean l.
Proof.
  intros Hl Hmu. unfold calculate_v_vol.
  destruct (length l <? 2)%nat eqn:E; [apply Nat.ltb_lt in E; lia|].
  assert (Hne : l <> []) by (destruct l; [cbn in Hl; lia | discriminate]).
  destruct (np_mean_value l Hne) as (mu & -> & Hm). cbn [bind].
  pose proof (one_percent_or_one_positive x_ref) as Hpos.
  destruct (Qltb mu (noise_threshold x_ref)) eqn:Et.
  - apply Qltb_lt in Et. rewrite noise_threshold_value, Hm in Et. lra.
  - destruct (np_std_value l Hne) as (sigma & -> & Hs). cbn [bind].
    rewrite fdiv_nonzero by (rewrite Hm; lra). cbn [bind].
    eexists. split; [reflexivity|]. now rewrite Hs, Hm.
Qed.

End VolatilityFacts.

Lemma floor_sqrt_value (a b : Q) : a == b -> floor_sqrt a == floor_sqrt b.
Proof.
  intros Hab. unfold floor_sqrt. now rewrite (Qred_complete a b Hab).
Qed.

(** The divisor is the count: the series 1, 3 has mean 2 and variance
    ((1-2)^2 + (3-2)^2) / 2 = 1, hence volatility 1/2. *)
Example calculate_v_vol_two_months :
  exists v, calculate_v_vol floor_sqrt [1; 3] None = Some (Finite v)
            /\ v == 1 / 2.
Proof.
  eexists. split; reflexivity.
Qed.

(** C3.  Fewer than two observations give 0.  Otherwise, the threshold
    being one percent of [x_ref] when it is given and positive and 1 when
    not, a population mean below the threshold gives the infinity
    sentinel, and any other mean gives the population standard deviation
    (the root of the variance whose divisor is the count) over the
    population mean.  Twelve months at 3900 with [x_ref] = 45000 give 0. *)
Theorem calculate_v_vol_cases
    (fsqrt : Q -> Q) (fsqrt_value : forall a b, a == b -> fsqrt a == fsqrt b)
    (monthly_values : list Q) (x_ref : option Q) :
  ((length monthly_values < 2)%nat ->
   calculate_v_vol fsqrt monthly_values x_ref = Some (Finite 0))
  /\ ((2 <= length monthly_values)%nat ->
      (pop_mean monthly_values < one_percent_or_one x_ref ->
       calculate_v_vol fsqrt monthly_values x_ref = Some Infinite)
      /\ (one_percent_or_one x_ref <= pop_mean monthly_values ->
          exists v,
            calculate_v_vol fsqrt monthly_values x_ref = Some (Finite v)
            /\ v == fsqrt (pop_variance monthly_values)
                    / pop_mean monthly_values))
  /\ (fsqrt 0 == 0 ->
      exists v,
        calculate_v_vol fsqrt (repeat 3900 12) (Some 45000) = Some (Finite v)
        /\ v == 0).
Proof.
  split; [|split].
  - apply calculate_v_vol_short.
  - intros Hl. split.
    + now apply calculate_v_vol_weak.
    + now apply calculate_v_vol_ratio.
  - intros Hzero.
    destruct (calculate_v_vol_ratio fsqrt fsqrt_value
                (repeat 3900 12) (Some 45000)) as (v & Hv & Hr).
    + cbn. lia.
    + vm_compute. discriminate.
    + exists v. split; [exact Hv|]. rewrite Hr.
      assert (Hvar : pop_variance (repeat 3900 12) == 0) by reflexivity.
      rewrite (fsqrt_value _ _ Hvar), Hzero. reflexivity.
Qed.

Lemma calculate_v_vol_cases_witness :
  calculate_v_vol floor_sqrt [3900] (Some 45000) = Some (Finite 0)
  /\ calculate_v_vol floor_sqrt [100; 200] (Some 45000) = Some Infinite
  /\ (exists v,
        calculate_v_vol floor_sqrt [1; 3] None = Some (Finite v)
        /\ v == floor_sqrt (pop_variance [1; 3]) / pop_mean [1; 3])
  /\ (exists v,
        calculate_v_vol floor_sqrt (repeat 3900 12) (Some 45000)
        = Some (Finite v)
        /\ v == 0).
Proof.
  split; [|split; [|split]].
  - apply (proj1 (calculate_v_vol_cases floor_sqrt floor_sqrt_value
                    [3900] (Some 45000))).
    cbn. lia.
  - apply (proj1 (proj2 (calculate_v_vol_cases floor_sqrt floor_sqrt_value
                           [100; 200] (Some 45000)))).
    + cbn. lia.
    + reflexivity.
  - apply (proj1 (proj2 (calculate_v_vol_cases floor_sqrt floor_sqrt_value
                           [1; 3] None))).
    + cbn. lia.
    + discriminate.
  - apply (proj2 (proj2 (calculate_v_vol_cases floor_sqrt floor_sqrt_value
                           [] None))).
    reflexivity.
Defined.


(** ** The stable sort *)

Lemma key_ltb_lt (k1 k2 : Z * Z) :
  key_ltb k1 k2 = true
  <-> (fst k1 < fst k2 \/ (fst k1 = fst k2 /\ snd k1 < snd k2))%Z.
Proof.
  unfold key_ltb. destruct (fst k1 =? fst k2)%Z eqn:E.
  - apply Z.eqb_eq in E. rewrite Z.ltb_lt. lia.
  - apply Z.eqb_neq in E. rewrite Z.ltb_lt. lia.
Qed.

Lemma key_ltb_ge (k1 k2 : Z * Z) :
  key_ltb k1 k2 = false
  <-> (fst k2 < fst k1 \/ (fst k2 = fst k1 /\ snd k2 <= snd k1))%Z.
Proof.
  rewrite <- not_true_iff_false, key_ltb_lt. lia.
Qed.

Section StableSortFacts.

Variable A : Type.
Variable key : A -> Z * Z.

Lemma key_le_trans (a b c : A) :
  key_le key a b -> key_le key b c -> key_le key a c.
Proof.
  unfold key_le. rewrite !key_ltb_ge. lia.
Qed.

Lemma insert_by_key_perm (x : A) (l : list A) :
  Permutation (x :: l) (insert_by_key key x l).
Proof.
  induction l as [|y l IH]; cbn; [reflexivity|].
  destruct (key_ltb (key y) (key x)); [|reflexivity].
  rewrite perm_swap. now constructor.
Qed.

Lemma sort_by_key_perm (l : list A) : Permutation l (sort_by_key key l).
Proof.
  induction l as [|x l IH]; cbn; [constructor|].
  rewrite <- insert_by_key_perm. now constructor.
Qed.

Lemma insert_by_key_sorted (x : A) (l : list A) :
  StronglySorted (key_le key) l ->
  StronglySorted (key_le key) (insert_by_key key x l).
Proof.
  induction 1 as [|y l Hs IH Hy]; cbn.
  - repeat constructor.
  - destruct (key_ltb (key y) (key x)) eqn:E.
    + constructor; [exact IH|].
      rewrite <- (insert_by_key_perm x l). constructor; [|exact Hy].
      unfold key_le. apply key_ltb_lt in E. apply key_ltb_ge. lia.
    + constructor; [now constructor|].
      constructor; [exact E|].
      eapply Forall_impl; [|exact Hy]. intros c. now apply key_le_trans.
Qed.

Lemma sort_by_key_sorted (l : list A) :
  StronglySorted (key_le key) (sort_by_key key l).
Proof.
  induction l as [|x l IH]; cbn; [constructor|].
  now apply insert_by_key_sorted.
Qed.

Lemma same_key_lt (k : Z * Z) (x y : A) :
  key_ltb (key y) (key x) = true -> same_key key k x = true ->
  same_key key k y = false.
Proof.
  unfold same_key. rewrite key_ltb_lt, andb_true_iff, !Z.eqb_eq.
  intros Hlt [H1 H2]. apply andb_false_iff. rewrite !Z.eqb_neq. lia.
Qed.

Lemma insert_by_key_stable (k : Z * Z) (x : A) (l : list A) :
  filter (same_key key k) (insert_by_key key x l)
  = filter (same_key key k) (x :: l).
Proof.
  induction l as [|y l IH]; [reflexivity|].
  cbn [insert_by_key]. destruct (key_ltb (key y) (key x)) eqn:E; [|reflexivity].
  cbn [filter] in *. rewrite IH.
  destruct (same_key key k x) eqn:Ex; [|reflexivity].
  now rewrite (same_key_lt k x y E Ex).
Qed.

Lemma sort_by_key_stable (k : Z * Z) (l : list A) :
  filter (same_key key k) (sort_by_key key l) = filter (same_key key k) l.
Proof.
  induction l as [|x l IH]; [reflexivity|].
  cbn [sort_by_key fold_right]. rewrite insert_by_key_stable.
  cbn [filter]. fold (sort_by_key key l). now rewrite IH.
Qed.

Lemma key_le_antisym (a b : A) :
  key_le key a b -> key_le key b a -> same_key key (key a) b = true.
Proof.
  unfold key_le, same_key. rewrite !key_ltb_ge, andb_true_iff, !Z.eqb_eq.
  lia.
Qed.

Lemma same_key_refl (a : A) : same_key key (key a) a = true.
Proof.
  unfold same_key. now rewrite !Z.eqb_refl.
Qed.

Lemma same_key_head (k : Z * Z) (a : A) (l : list A) :
  StronglySorted (key_le key) (a :: l) ->
  filter (same_key key k) (a :: l) <> [] -> key_le key a
    (hd a (filter (same_key key k) (a :: l))).
Proof.
  intros Hs Hne. apply StronglySorted_inv in Hs. destruct Hs as [_ Ha].
  rewrite Forall_forall in Ha.
  destruct (filter (same_key key k) (a :: l)) as [|c f] eqn:E;
    [contradiction|].
  assert (Hc : In c (a :: l)).
  { apply (proj1 (filter_In (same_key key k) c (a :: l))).
    rewrite E. now left. }
  cbn [hd]. destruct Hc as [<-|Hc]; [|now apply Ha].
  unfold key_le. apply key_ltb_ge. lia.
Qed.

(** A list that is sorted by key and keeps, for every key, the elements
    with that key in their former order is determined: whatever stable
    sort [list.sort] runs, it returns the list [sort_by_key] returns. *)
Lemma stable_sorted_unique (l1 l2 : list A) :
  StronglySorted (key_le key) l1 -> StronglySorted (key_le key) l2 ->
  (forall k, filter (same_key key k) l1 = filter (same_key key k) l2) ->
  l1 = l2.
Proof.
  intros Hs1. revert l2.
  induction l1 as [|a l1 IH]; intros [|b l2] Hs2 Hf.
  - reflexivity.
  - specialize (Hf (key b)). cbn [filter] in Hf.
    rewrite same_key_refl in Hf. discriminate.
  - specialize (Hf (key a)). cbn [filter] in Hf.
    rewrite same_key_refl in Hf. discriminate.
  - assert (Hab : key_le key a b).
    { pose proof (same_key_head (key b) a l1 Hs1) as H.
      rewrite (Hf (key b)) in H. cbn [filter] in H.
      rewrite same_key_refl in H. cbn [hd] in H. apply H. discriminate. }
    assert (Hba : key_le key b a).
    { pose proof (same_key_head (key a) b l2 Hs2) as H.
      rewrite <- (Hf (key a)) in H. cbn [filter] in H.
      rewrite same_key_refl in H. cbn [hd] in H. apply H. discriminate. }
    assert (Heq : a = b).
    { pose proof (Hf (key a)) as H. cbn [filter] in H.
      rewrite same_key_refl, (key_le_antisym a b Hab Hba) in H.
      now injection H. }
    subst b. f_equal.
    apply IH.
    + now apply StronglySorted_inv in Hs1.
    + now apply StronglySorted_inv in Hs2.
    + intros k. specialize (Hf k). cbn [filter] in Hf.
      destruct (same_key key k a); [now injection Hf | exact Hf].
Qed.

Lemma sort_by_key_unique (l sorted : list A) :
  StronglySorted (key_le key) sorted ->
  (forall k, filter (same_key key k) sorted = filter (same_key key k) l) ->
  sorted = sort_by_key key l.
Proof.
  intros Hs Hf. apply stable_sorted_unique; [exact Hs | |].
  - apply sort_by_key_sorted.
  - intros k. now rewrite sort_by_key_stable.
Qed.

(** Entries that come last in the unsorted list and whose keys are below
    all the others lead the sorted list. *)
Lemma insert_by_key_after (x y : A) (l : list A) :
  key_ltb (key y) (key x) = true ->
  insert_by_key key x (y :: l) = y :: insert_by_key key x l.
Proof.
  intros E. cbn. now rewrite E.
Qed.

Lemma fold_insert_after (y : A) (s l : list A) :
  Forall (fun x => key_ltb (key y) (key x) = true) l ->
  fold_right (insert_by_key key) (y :: s) l
  = y :: fold_right (insert_by_key key) s l.
Proof.
  induction 1 as [|x l Hx _ IH]; [reflexivity|].
  cbn [fold_right]. rewrite IH. now apply insert_by_key_after.
Qed.

Lemma sort_by_key_app (l1 l2 : list A) :
  sort_by_key key (l1 ++ l2)
  = fold_right (insert_by_key key) (sort_by_key key l2) l1.
Proof.
  unfold sort_by_key. apply fold_right_app.
Qed.

End StableSortFacts.

Lemma In_firstn {A : Type} (n : nat) (l : list A) (a : A) :
  In a (firstn n l) -> In a l.
Proof.
  revert n. induction l as [|b l IH]; intros [|n]; cbn; try tauto.
  intros [H|H]; [now left | right; now apply (IH n)].
Qed.

Lemma StronglySorted_firstn {A : Type} (R : A -> A -> Prop) (n : nat)
    (l : list A) :
  StronglySorted R l -> StronglySorted R (firstn n l).
Proof.
  intros Hs. revert n. induction Hs as [|a l Hs IH Ha]; intros [|n]; cbn;
    try constructor.
  - apply IH.
  - apply Forall_forall. intros b Hb. rewrite Forall_forall in Ha.
    apply Ha. now apply (In_firstn n).
Qed.

Lemma StronglySorted_nth_error {A : Type} (R : A -> A -> Prop) (l : list A) :
  StronglySorted R l ->
  forall i j a b, (i < j)%nat ->
    nth_error l i = Some a -> nth_error l j = Some b -> R a b.
Proof.
  induction 1 as [|c l Hs IH Hc]; intros i j a b Hij Hi Hj.
  - destruct i; discriminate.
  - destruct j as [|j]; [lia|]. cbn in Hj. destruct i as [|i].
    + cbn in Hi. injection Hi as <-. rewrite Forall_forall in Hc.
      apply Hc. eapply nth_error_In. exact Hj.
    + cbn in Hi. apply (IH i j); [lia | assumption | assumption].
Qed.

(** ** Recommendations: [generate_recommendations] *)

Lemma key_le_ranked (r1 r2 : recommendation) :
  key_le sort_key r1 r2 <-> ranked_before r1 r2.
Proof.
  unfold key_le, ranked_before, sort_key. rewrite key_ltb_ge. cbn [fst snd].
  lia.
Qed.

Lemma StronglySorted_ranked (l : list recommendation) :
  StronglySorted (key_le sort_key) l -> StronglySorted ranked_before l.
Proof.
  induction 1 as [|r l Hs IH Hr]; constructor; [exact IH|].
  eapply Forall_impl; [|exact Hr]. intros r'. apply key_le_ranked.
Qed.

Lemma transp_gaps_priority (transp_indicators : list bool) :
  Forall (fun r => priority r = 2%Z) (transp_gaps transp_indicators).
Proof.
  apply Forall_forall. intros r Hr. unfold transp_gaps in Hr.
  apply in_flat_map in Hr. destruct Hr as ([done label] & _ & Hr).
  destruct done; [contradiction|]. destruct Hr as [<-|[]]. reflexivity.
Qed.

Lemma inst_gaps_priority (inst_indicators : list bool) :
  Forall (fun r => priority r = 2%Z \/ priority r = 3%Z)
    (inst_gaps inst_indicators).
Proof.
  apply Forall_forall. intros r Hr. unfold inst_gaps in Hr.
  apply in_flat_map in Hr. destruct Hr as ([[label score] done] & _ & Hr).
  destruct done; [contradiction|]. destruct Hr as [<-|[]]. cbn.
  destruct (score =? 10)%Z; auto.
Qed.

Lemma checklist_gaps_priority (transp_indicators inst_indicators : list bool) :
  Forall (fun r => priority r = 2%Z \/ priority r = 3%Z)
    (checklist_gaps transp_indicators inst_indicators).
Proof.
  apply Forall_app. split.
  - eapply Forall_impl; [|apply transp_gaps_priority]. cbn. auto.
  - apply inst_gaps_priority.
Qed.

Lemma systemic_priority (v_hr m_stab : Q) :
  Forall (fun r => priority r = 1%Z) (systemic v_hr m_stab).
Proof.
  unfold systemic.
  destruct (Qltb v_hr 50), (Qltb m_stab 50); repeat constructor.
Qed.

Lemma systemic_members (v_hr m_stab : Q) (r : recommendation) :
  In r (systemic v_hr m_stab)
  <-> (r = hr_recommendation /\ v_hr < 50)
      \/ (r = media_recommendation /\ m_stab < 50).
Proof.
  unfold systemic. rewrite in_app_iff, <- !Qltb_lt.
  destruct (Qltb v_hr 50), (Qltb m_stab 50); cbn;
    intuition (congruence || auto).
Qed.

Lemma collect_recommendations_split
    (transp_indicators inst_indicators : list bool) (v_hr m_stab : Q) :
  collect_recommendations transp_indicators inst_indicators v_hr m_stab
  = checklist_gaps transp_indicators inst_indicators ++ systemic v_hr m_stab.
Proof.
  unfold collect_recommendations, checklist_gaps, systemic.
  now rewrite app_assoc.
Qed.

(** The sorted list: the systemic entries, then the sorted check-list
    gaps. *)
Lemma sort_collect_recommendations
    (transp_indicators inst_indicators : list bool) (v_hr m_stab : Q) :
  sort_by_key sort_key
    (collect_recommendations transp_indicators inst_indicators v_hr m_stab)
  = systemic v_hr m_stab
    ++ sort_by_key sort_key (checklist_gaps transp_indicators inst_indicators).
Proof.
  rewrite collect_recommendations_split, sort_by_key_app.
  set (gaps := checklist_gaps transp_indicators inst_indicators).
  assert (Hhr : Forall (fun x => key_ltb (sort_key hr_recommendation)
                                   (sort_key x) = true) gaps).
  { eapply Forall_impl; [|apply checklist_gaps_priority].
    intros r Hr. cbv beta in Hr. apply key_ltb_lt.
    unfold sort_key, hr_recommendation; cbn [fst snd priority potential].
    lia. }
  assert (Hmedia : Forall (fun x => key_ltb (sort_key media_recommendation)
                                      (sort_key x) = true) gaps).
  { eapply Forall_impl; [|apply checklist_gaps_priority].
    intros r Hr. cbv beta in Hr. apply key_ltb_lt.
    unfold sort_key, media_recommendation; cbn [fst snd priority potential].
    lia. }
  unfold systemic. destruct (Qltb v_hr 50), (Qltb m_stab 50); cbn [app].
  - change (sort_by_key sort_key [hr_recommendation; media_recommendation])
      with [hr_recommendation; media_recommendation].
    now rewrite !fold_insert_after.
  - change (sort_by_key sort_key [hr_recommendation])
      with [hr_recommendation].
    now rewrite fold_insert_after.
  - change (sort_by_key sort_key [media_recommendation])
      with [media_recommendation].
    now rewrite fold_insert_after.
  - reflexivity.
Qed.

Lemma generate_recommendations_split
    (transp_indicators inst_indicators : list bool) (inst_scores : list Z)
    (v_hr m_stab : Q) :
  generate_recommendations transp_indicators inst_indicators inst_scores
    v_hr m_stab
  = systemic v_hr m_stab
    ++ firstn (5 - length (systemic v_hr m_stab))
         (sort_by_key sort_key
            (checklist_gaps transp_indicators inst_indicators)).
Proof.
  unfold generate_recommendations. cbv zeta.
  rewrite sort_collect_recommendations, firstn_app.
  rewrite firstn_all2; [reflexivity|].
  unfold systemic. destruct (Qltb v_hr 50), (Qltb m_stab 50); cbn; lia.
Qed.

Lemma generate_recommendations_members
    (transp_indicators inst_indicators : list bool) (inst_scores : list Z)
    (v_hr m_stab : Q) (r : recommendation) :
  In r (generate_recommendations transp_indicators inst_indicators
          inst_scores v_hr m_stab) ->
  In r (systemic v_hr m_stab)
  \/ In r (checklist_gaps transp_indicators inst_indicators).
Proof.
  rewrite generate_recommendations_split, in_app_iff.
  intros [H|H]; [now left | right].
  apply In_firstn in H. revert H.
  apply Permutation_in, Permutation_sym, sort_by_key_perm.
Qed.

(** C5.  The result has at most five entries and is sorted by ascending
    priority and, at equal priority, descending potential; it is the first
    five entries of a rearrangement of the collected entries that is sorted
    in that order and keeps entries with equal keys in the order they were
    collected.  Its entries of priority 1 are the employer-brand entry
    (there exactly when [v_hr] < 50) and the media entry (there exactly
    when [m_stab] < 50), and each of them stands before every check-list
    gap in the result. *)
Theorem generate_recommendations_ranked
    (transp_indicators inst_indicators : list bool) (inst_scores : list Z)
    (v_hr m_stab : Q) :
  (length (generate_recommendations transp_indicators inst_indicators
             inst_scores v_hr m_stab) <= 5)%nat
  /\ StronglySorted ranked_before
       (generate_recommendations transp_indicators inst_indicators
          inst_scores v_hr m_stab)
  /\ (exists sorted,
        generate_recommendations transp_indicators inst_indicators
          inst_scores v_hr m_stab = firstn 5 sorted
        /\ Permutation
             (collect_recommendations transp_indicators inst_indicators
                v_hr m_stab) sorted
        /\ StronglySorted ranked_before sorted
        /\ forall k,
             filter (same_key sort_key k) sorted
             = filter (same_key sort_key k)
                 (collect_recommendations transp_indicators inst_indicators
                    v_hr m_stab))
  /\ (forall r,
        In r (generate_recommendations transp_indicators inst_indicators
                inst_scores v_hr m_stab) ->
        (priority r = 1%Z
         <-> (r = hr_recommendation /\ v_hr < 50)
             \/ (r = media_recommendation /\ m_stab < 50)))
  /\ (v_hr < 50 ->
      In hr_recommendation
        (generate_recommendations transp_indicators inst_indicators
           inst_scores v_hr m_stab))
  /\ (m_stab < 50 ->
      In media_recommendation
        (generate_recommendations transp_indicators inst_indicators
           inst_scores v_hr m_stab))
  /\ (forall i j r1 r2,
        nth_error (generate_recommendations transp_indicators
                     inst_indicators inst_scores v_hr m_stab) i = Some r1 ->
        nth_error (generate_recommendations transp_indicators
                     inst_indicators inst_scores v_hr m_stab) j = Some r2 ->
        priority r1 = 1%Z ->
        In r2 (checklist_gaps transp_indicators inst_indicators) ->
        (i < j)%nat).
Proof.
  assert (Hsorted : StronglySorted ranked_before
            (generate_recommendations transp_indicators inst_indicators
               inst_scores v_hr m_stab)).
  { apply StronglySorted_firstn, StronglySorted_ranked, sort_by_key_sorted. }
  pose proof (checklist_gaps_priority transp_indicators inst_indicators)
    as Hgaps.
  rewrite Forall_forall in Hgaps.
  pose proof (systemic_priority v_hr m_stab) as Hsys.
  rewrite Forall_forall in Hsys.
  split; [|split; [|split; [|split; [|split; [|split]]]]].
  - apply firstn_le_length.
  - exact Hsorted.
  - exists (sort_by_key sort_key
              (collect_recommendations transp_indicators inst_indicators
                 v_hr m_stab)).
    split; [reflexivity|]. split; [apply sort_by_key_perm|].
    split; [apply StronglySorted_ranked, sort_by_key_sorted|].
    intros k. apply sort_by_key_stable.
  - intros r Hr. rewrite <- systemic_members.
    apply generate_recommendations_members in Hr. split.
    + intros Hp. destruct Hr as [Hr|Hr]; [exact Hr|].
      apply Hgaps in Hr. lia.
    + apply Hsys.
  - intros Hv. rewrite generate_recommendations_split, in_app_iff. left.
    apply systemic_members. left. now split.
  - intros Hm. rewrite generate_recommendations_split, in_app_iff. left.
    apply systemic_members. right. now split.
  - intros i j r1 r2 Hi Hj Hp Hg. apply Hgaps in Hg.
    destruct (Nat.lt_trichotomy i j) as [Hlt|[Heq|Hgt]]; [exact Hlt| |].
    + subst j. rewrite Hi in Hj. injection Hj as <-. lia.
    + pose proof (StronglySorted_nth_error _ _ Hsorted j i r2 r1 Hgt Hj Hi)
        as Hr.
      unfold ranked_before in Hr. lia.
Qed.

(** One transparency criterion and two institutional criteria open, both
    subindices weak: the two systemic entries lead, then the 10-point gaps
    in the order they were collected, then the 5-point gap. *)
Example generate_recommendations_weak :
  map (fun r => (priority r, potential r))
    (generate_recommendations
       [false; true; true; true; true; true; true; true; true; true]
       [true; true; true; true; false; true; true; true; true; true; true;
        true; false]
       inst_scores 20 20)
  = [(1, 50); (1, 30); (2, 10); (2, 10); (3, 5)]%Z.
Proof.
  reflexivity.
Qed.

Lemma generate_recommendations_ranked_witness :
  In hr_recommendation
    (generate_recommendations (false :: repeat true 9) (repeat true 13)
       inst_scores 20 20)
  /\ In media_recommendation
       (generate_recommendations (false :: repeat true 9) (repeat true 13)
          inst_scores 20 20)
  /\ (priority hr_recommendation = 1%Z
      <-> (hr_recommendation = hr_recommendation /\ 20 < 50)
          \/ (hr_recommendation = media_recommendation /\ 20 < 50))
  /\ (0 < 2)%nat.
Proof.
  pose proof (generate_recommendations_ranked
                (false :: repeat true 9) (repeat true 13) inst_scores 20 20)
    as (_ & _ & _ & Hone & Hhr & Hmedia & Hbefore).
  split; [|split; [|split]].
  - apply Hhr. reflexivity.
  - apply Hmedia. reflexivity.
  - apply Hone. left. reflexivity.
  - apply (Hbefore 0%nat 2%nat hr_recommendation
             (mk_recommendation "Транспарентность"
                (hd EmptyString TRANSP_CRITERIA) 10 2)).
    + reflexivity.
    + reflexivity.
    + reflexivity.
    + left. reflexivity.
Defined.

(** * Further properties of the engine *)

(** ** Ratios in percent *)

Lemma clamp_monotone (v1 v2 lo hi : Q) :
  lo <= hi -> v1 <= v2 -> clamp v1 lo hi <= clamp v2 lo hi.
Proof.
  intros Hb Hv. unfold clamp. by_cases; lra.
Qed.

Lemma clamp_inside (v lo hi : Q) : lo <= v <= hi -> clamp v lo hi == v.
Proof.
  intros Hv. unfold clamp. by_cases; lra.
Qed.

Lemma ratio_monotone (a b d : Q) : 0 < d -> a <= b -> a / d <= b / d.
Proof.
  intros Hd Hab. apply Qle_shift_div_l; [exact Hd|].
  setoid_replace (a / d * d) with a by (field; lra). exact Hab.
Qed.

Lemma ratio_bounds (a d : Q) : 0 < d -> - d <= a <= d -> -1 <= a / d <= 1.
Proof.
  intros Hd Ha. split.
  - apply Qle_shift_div_l; [exact Hd | lra].
  - apply Qle_shift_div_r; [exact Hd | lra].
Qed.

Lemma calculate_i_media_range (val_i x_ref : Q) :
  exists i_media,
    calculate_i_media val_i x_ref = Some i_media /\ 0 <= i_media <= 100.
Proof.
  destruct (Qlt_le_dec 0 x_ref) as [Hx|Hx].
  - destruct (calculate_i_media_eq val_i x_ref Hx) as (r & Hr & Hc).
    exists r. split; [exact Hr|]. rewrite Hc. apply clamp_bounds. lra.
  - unfold calculate_i_media. apply Qle_bool_iff in Hx. rewrite Hx.
    exists 0. split; [reflexivity | lra].
Qed.

(** X1.  Rising media presence never lowers [calculate_i_media]: for a fixed
    positive reference the result is monotone in the value, it is 0 for
    every value that is zero or negative and 100 from the reference on. *)
Theorem calculate_i_media_monotone (val1 val2 x_ref : Q) :
  0 < x_ref ->
  (val1 <= val2 ->
   exists r1 r2,
     calculate_i_media val1 x_ref = Some r1
     /\ calculate_i_media val2 x_ref = Some r2
     /\ r1 <= r2)
  /\ (val1 <= 0 -> returns (calculate_i_media val1 x_ref) 0)
  /\ (x_ref <= val1 -> returns (calculate_i_media val1 x_ref) 100).
Proof.
  intros Hx.
  destruct (calculate_i_media_eq val1 x_ref Hx) as (r1 & Hr1 & Hc1).
  destruct (calculate_i_media_eq val2 x_ref Hx) as (r2 & Hr2 & Hc2).
  split; [|split].
  - intros Hv. exists r1, r2. repeat split; trivial.
    rewrite Hc1, Hc2. apply clamp_monotone; [lra|].
    pose proof (ratio_monotone val1 val2 x_ref Hx Hv). lra.
  - intros Hv. rewrite Hr1. cbn [returns]. rewrite Hc1.
    pose proof (ratio_monotone val1 0 x_ref Hx Hv) as H.
    setoid_replace (0 / x_ref) with 0 in H by (field; lra).
    unfold clamp. by_cases; lra.
  - intros Hv. rewrite Hr1. cbn [returns]. rewrite Hc1.
    pose proof (ratio_monotone x_ref val1 x_ref Hx Hv) as H.
    setoid_replace (x_ref / x_ref) with 1 in H by (field; lra).
    unfold clamp. by_cases; lra.
Qed.

Lemma calculate_i_media_monotone_witness :
  (exists r1 r2,
      calculate_i_media 30000 45000 = Some r1
      /\ calculate_i_media 40000 45000 = Some r2
      /\ r1 <= r2)
  /\ returns (calculate_i_media (-5) 45000) 0
  /\ returns (calculate_i_media 50000 45000) 100.
Proof.
  split; [|split].
  - apply (proj1 (calculate_i_media_monotone 30000 40000 45000 eq_refl)).
    discriminate.
  - apply (proj1 (proj2 (calculate_i_media_monotone (-5) 0 45000 eq_refl))).
    discriminate.
  - apply (proj2 (proj2 (calculate_i_media_monotone 50000 0 45000 eq_refl))).
    discriminate.
Defined.

(** ** Manual tracking: [calculate_manual_track_i_media] *)

Lemma calculate_manual_track_i_media_eq (n_pos n_neg n_total : Z) :
  (0 < n_total)%Z ->
  calculate_manual_track_i_media n_pos n_neg n_total =
    Some (py_max 0.0 (py_min 100.0
            ((1 + inject_Z (n_pos - n_neg) / inject_Z n_total) * 50))).
Proof.
  intros Ht. unfold calculate_manual_track_i_media.
  destruct (n_total <=? 0)%Z eqn:E; [apply Z.leb_le in E; lia|].
  rewrite fdiv_nonzero; [reflexivity|].
  change 0 with (inject_Z 0). rewrite inject_Z_injective. lia.
Qed.

Lemma py_clamp_literals (v : Q) :
  py_max 0.0 (py_min 100.0 v) == clamp v 0 100.
Proof.
  unfold py_min. by_cases; unfold py_max, clamp; by_cases; lra.
Qed.

Lemma calculate_manual_track_i_media_range (n_pos n_neg n_total : Z) :
  exists i_media,
    calculate_manual_track_i_media n_pos n_neg n_total = Some i_media
    /\ 0 <= i_media <= 100.
Proof.
  destruct (Z_lt_le_dec 0 n_total) as [Ht|Ht].
  - rewrite (calculate_manual_track_i_media_eq _ _ _ Ht).
    eexists. split; [reflexivity|]. rewrite py_clamp_literals.
    apply clamp_bounds. lra.
  - unfold calculate_manual_track_i_media.
    apply Z.leb_le in Ht. rewrite Ht.
    eexists. split; [reflexivity | split; discriminate].
Qed.

(** X2.  Without publications ([n_total] zero or negative) the manual index is
    0; otherwise it is (1 + (n_pos - n_neg) / n_total) * 50 clamped to
    [0,100], and no division by zero is reached. *)
Theorem calculate_manual_track_i_media_clamped (n_pos n_neg n_total : Z) :
  ((n_total <= 0)%Z ->
   returns (calculate_manual_track_i_media n_pos n_neg n_total) 0)
  /\ ((0 < n_total)%Z ->
      exists r,
        calculate_manual_track_i_media n_pos n_neg n_total = Some r
        /\ r == clamp ((1 + inject_Z (n_pos - n_neg) / inject_Z n_total) * 50)
                  0 100
        /\ 0 <= r <= 100).
Proof.
  split.
  - intros Ht. unfold calculate_manual_track_i_media.
    apply Z.leb_le in Ht. rewrite Ht. reflexivity.
  - intros Ht. rewrite (calculate_manual_track_i_media_eq _ _ _ Ht).
    eexists. split; [reflexivity|]. rewrite py_clamp_literals.
    split; [reflexivity | apply clamp_bounds; lra].
Qed.

Lemma calculate_manual_track_i_media_clamped_witness :
  returns (calculate_manual_track_i_media 70 30 0) 0
  /\ (exists r,
        calculate_manual_track_i_media 70 30 100 = Some r
        /\ r == clamp ((1 + inject_Z (70 - 30) / inject_Z 100) * 50) 0 100
        /\ 0 <= r <= 100).
Proof.
  split.
  - apply (proj1 (calculate_manual_track_i_media_clamped 70 30 0)). lia.
  - apply (proj2 (calculate_manual_track_i_media_clamped 70 30 100)). lia.
Defined.

(** X3.  When the positive and the negative counts differ by no more than the
    total, the clamp is idle and the index is (1 + (n_pos - n_neg) /
    n_total) * 50: 50 for equal counts, 100 when the difference is the
    whole total, 0 when it is the whole total the other way.  Counts whose
    difference exceeds the total, which nothing excludes, are cut to 100
    or 0. *)
Theorem calculate_manual_track_i_media_shares (n_pos n_neg n_total : Z) :
  (0 < n_total)%Z ->
  ((- n_total <= n_pos - n_neg <= n_total)%Z ->
   returns (calculate_manual_track_i_media n_pos n_neg n_total)
     ((1 + inject_Z (n_pos - n_neg) / inject_Z n_total) * 50))
  /\ (n_pos = n_neg ->
      returns (calculate_manual_track_i_media n_pos n_neg n_total) 50)
  /\ ((n_total <= n_pos - n_neg)%Z ->
      returns (calculate_manual_track_i_media n_pos n_neg n_total) 100)
  /\ ((n_pos - n_neg <= - n_total)%Z ->
      returns (calculate_manual_track_i_media n_pos n_neg n_total) 0).
Proof.
  intros Ht. rewrite (calculate_manual_track_i_media_eq _ _ _ Ht).
  cbn [returns]. rewrite py_clamp_literals.
  assert (Hq : 0 < inject_Z n_total).
  { change 0 with (inject_Z 0). now rewrite <- Zlt_Qlt. }
  set (d := inject_Z (n_pos - n_neg)). set (t := inject_Z n_total) in *.
  split; [|split; [|split]].
  - intros [Hl Hu]. apply clamp_inside.
    assert (Hd : - t <= d <= t).
    { subst d t. rewrite <- inject_Z_opp, <- !Zle_Qle. lia. }
    pose proof (ratio_bounds d t Hq Hd). lra.
  - intros ->. subst d. rewrite Z.sub_diag.
    assert (H : inject_Z 0 / t == 0) by (field; lra).
    unfold clamp. by_cases; lra.
  - intros Hd. assert (Hd' : t <= d) by (subst d t; now rewrite <- Zle_Qle).
    pose proof (ratio_monotone t d t Hq Hd') as H.
    setoid_replace (t / t) with 1 in H by (field; lra).
    unfold clamp. by_cases; lra.
  - intros Hd.
    assert (Hd' : d <= - t).
    { subst d t. rewrite <- inject_Z_opp, <- Zle_Qle. lia. }
    pose proof (ratio_monotone d (- t) t Hq Hd') as H.
    setoid_replace (- t / t) with (-1) in H by (field; lra).
    unfold clamp. by_cases; lra.
Qed.

Lemma calculate_manual_track_i_media_shares_witness :
  returns (calculate_manual_track_i_media 70 30 100)
    ((1 + inject_Z (70 - 30) / inject_Z 100) * 50)
  /\ returns (calculate_manual_track_i_media 40 40 100) 50
  /\ returns (calculate_manual_track_i_media 250 0 100) 100
  /\ returns (calculate_manual_track_i_media 0 250 100) 0.
Proof.
  split; [|split; [|split]].
  - apply (proj1 (calculate_manual_track_i_media_shares 70 30 100 eq_refl)).
    lia.
  - apply (proj1 (proj2
             (calculate_manual_track_i_media_shares 40 40 100 eq_refl))).
    reflexivity.
  - apply (proj1 (proj2 (proj2
             (calculate_manual_track_i_media_shares 250 0 100 eq_refl)))).
    lia.
  - apply (proj2 (proj2 (proj2
             (calculate_manual_track_i_media_shares 0 250 100 eq_refl)))).
    lia.
Defined.

(** ** Employer brand: the rank *)

(** X4.  With more than one participant a worse rank never gives a higher
    [calculate_v_hr]; rank 1 (or anything before it) gives 100 and the last
    rank (or anything after it) gives 0. *)
Theorem calculate_v_hr_rank (rank1 rank2 total : Z) :
  (1 < total)%Z ->
  ((rank1 <= rank2)%Z ->
   exists r1 r2,
     calculate_v_hr rank1 total = Some r1
     /\ calculate_v_hr rank2 total = Some r2
     /\ r2 <= r1)
  /\ ((rank1 <= 1)%Z -> returns (calculate_v_hr rank1 total) 100)
  /\ ((total <= rank1)%Z -> returns (calculate_v_hr rank1 total) 0).
Proof.
  intros Ht. rewrite !(calculate_v_hr_eq _ _ Ht).
  assert (Hq : 0 < inject_Z (total - 1)).
  { change 0 with (inject_Z 0). rewrite <- Zlt_Qlt. lia. }
  set (t := inject_Z (total - 1)) in *.
  split; [|split].
  - intros Hr. do 2 eexists. split; [reflexivity|]. split; [reflexivity|].
    rewrite !py_clamp_eq. apply clamp_monotone; [lra|].
    assert (Ha : inject_Z (rank1 - 1) <= inject_Z (rank2 - 1)).
    { rewrite <- Zle_Qle. lia. }
    pose proof (ratio_monotone _ _ t Hq Ha). lra.
  - intros Hr. cbn [returns]. rewrite py_clamp_eq.
    assert (Ha : inject_Z (rank1 - 1) <= 0).
    { change 0 with (inject_Z 0). rewrite <- Zle_Qle. lia. }
    pose proof (ratio_monotone _ _ t Hq Ha) as H.
    assert (H0 : 0 / t == 0) by (field; lra).
    unfold clamp. by_cases; lra.
  - intros Hr. cbn [returns]. rewrite py_clamp_eq.
    assert (Ha : t <= inject_Z (rank1 - 1)).
    { subst t. rewrite <- Zle_Qle. lia. }
    pose proof (ratio_monotone _ _ t Hq Ha) as H.
    assert (H1 : t / t == 1) by (field; lra).
    unfold clamp. by_cases; lra.
Qed.

Lemma calculate_v_hr_rank_witness :
  (exists r1 r2,
      calculate_v_hr 45 700 = Some r1
      /\ calculate_v_hr 46 700 = Some r2
      /\ r2 <= r1)
  /\ returns (calculate_v_hr 1 700) 100
  /\ returns (calculate_v_hr 700 700) 0.
Proof.
  split; [|split].
  - apply (proj1 (calculate_v_hr_rank 45 46 700 eq_refl)). lia.
  - apply (proj1 (proj2 (calculate_v_hr_rank 1 1 700 eq_refl))). lia.
  - apply (proj2 (proj2 (calculate_v_hr_rank 700 1 700 eq_refl))). lia.
Defined.

(** ** Volatility and media stability together *)

Lemma np_mean_defined (l : list Q) :
  l <> [] -> np_mean l = Some (fsum l / count l).
Proof.
  intros Hl. pose proof (count_positive l Hl) as Hc.
  unfold np_mean. fold (count l). apply fdiv_nonzero. lra.
Qed.

Lemma np_std_defined (fsqrt : Q -> Q) (l : list Q) :
  l <> [] -> exists var, np_std fsqrt l = Some (fsqrt var).
Proof.
  intros Hl. unfold np_std. rewrite (np_mean_defined l Hl). cbn [bind].
  rewrite np_mean_defined; [cbn [bind]; eauto|].
  destruct l; [contradiction | discriminate].
Qed.

Lemma calculate_v_vol_value
    (fsqrt : Q -> Q) (fsqrt_nonneg : forall q, 0 <= fsqrt q)
    (monthly_values : list Q) (x_ref : option Q) :
  exists v_vol,
    calculate_v_vol fsqrt monthly_values x_ref = Some v_vol
    /\ match v_vol with
       | Finite v => 0 <= v
       | Infinite => True
       end.
Proof.
  unfold calculate_v_vol.
  destruct (length monthly_values <? 2)%nat eqn:E.
  - exists (Finite 0). split; [reflexivity | lra].
  - apply Nat.ltb_ge in E.
    assert (Hne : monthly_values <> [])
      by (destruct monthly_values; [cbn in E; lia | discriminate]).
    rewrite (np_mean_defined _ Hne). cbn [bind].
    set (mu := fsum monthly_values / count monthly_values).
    destruct (Qltb mu (noise_threshold x_ref)) eqn:Et.
    + exists Infinite. split; [reflexivity | exact I].
    + apply Qltb_ge in Et. rewrite noise_threshold_value in Et.
      pose proof (one_percent_or_one_positive x_ref) as Hpos.
      destruct (np_std_defined fsqrt _ Hne) as (var & ->). cbn [bind].
      rewrite fdiv_nonzero by lra. cbn [bind].
      eexists. split; [reflexivity|]. cbn.
      apply Qle_shift_div_l; [lra|]. specialize (fsqrt_nonneg var). lra.
Qed.

(** X5.  [calculate_v_vol] always has a value: on no series and with no
    reference does a division by zero happen; and with a square root that
    is never negative the value is the sentinel or a ratio that is not
    negative. *)
Theorem calculate_v_vol_defined
    (fsqrt : Q -> Q) (fsqrt_nonneg : forall q, 0 <= fsqrt q)
    (monthly_values : list Q) (x_ref : option Q) :
  exists v_vol,
    calculate_v_vol fsqrt monthly_values x_ref = Some v_vol
    /\ match v_vol with
       | Finite v => 0 <= v
       | Infinite => True
       end.
Proof.
  exact (calculate_v_vol_value fsqrt fsqrt_nonneg monthly_values x_ref).
Qed.

Lemma floor_sqrt_nonneg (q : Q) : 0 <= floor_sqrt q.
Proof.
  unfold floor_sqrt, Qle. cbn. rewrite Z.mul_1_r. apply Z.sqrt_nonneg.
Qed.

Lemma calculate_v_vol_defined_witness :
  exists v_vol,
    calculate_v_vol floor_sqrt [3900; 4100; 3800] (Some 45000) = Some v_vol
    /\ match v_vol with
       | Finite v => 0 <= v
       | Infinite => True
       end.
Proof.
  apply (calculate_v_vol_defined floor_sqrt floor_sqrt_nonneg).
Defined.

Lemma calculate_m_stab_below (i_media : Q) (v_vol : volatility) :
  0 <= i_media ->
  match v_vol with Finite v => 0 <= v | Infinite => True end ->
  exists m_stab,
    calculate_m_stab i_media v_vol = Some m_stab /\ 0 <= m_stab <= i_media.
Proof.
  intros Hi Hv. destruct v_vol as [v|].
  - rewrite (calculate_m_stab_finite i_media v Hv).
    eexists. split; [reflexivity|]. split.
    + apply Qle_shift_div_l; lra.
    + apply Qle_shift_div_r; [lra | nra].
  - exists 0. split; [reflexivity | lra].
Qed.

(** X7.  The three steps behind M_stab, on either input path, always produce a
    number, and it lies between 0 and the media index, which is at most
    100: from [calculate_i_media] with the same reference as the
    volatility, and from [calculate_manual_track_i_media] with no
    reference. *)
Theorem media_stability_bounded
    (fsqrt : Q -> Q) (fsqrt_nonneg : forall q, 0 <= fsqrt q)
    (monthly_values : list Q) :
  (forall val_i x_ref,
     exists i_media v_vol m_stab,
       calculate_i_media val_i x_ref = Some i_media
       /\ calculate_v_vol fsqrt monthly_values (Some x_ref) = Some v_vol
       /\ calculate_m_stab i_media v_vol = Some m_stab
       /\ 0 <= m_stab <= i_media /\ i_media <= 100)
  /\ (forall n_pos n_neg n_total,
        exists i_media v_vol m_stab,
          calculate_manual_track_i_media n_pos n_neg n_total = Some i_media
          /\ calculate_v_vol fsqrt monthly_values None = Some v_vol
          /\ calculate_m_stab i_media v_vol = Some m_stab
          /\ 0 <= m_stab <= i_media /\ i_media <= 100).
Proof.
  split.
  - intros val_i x_ref.
    destruct (calculate_i_media_range val_i x_ref) as (i_media & Hi & Hb).
    destruct (calculate_v_vol_value fsqrt fsqrt_nonneg monthly_values
                (Some x_ref)) as (v_vol & Hv & Hnn).
    destruct (calculate_m_stab_below i_media v_vol (proj1 Hb) Hnn)
      as (m_stab & Hm & Hmb).
    exists i_media, v_vol, m_stab. repeat split; trivial; lra.
  - intros n_pos n_neg n_total.
    destruct (calculate_manual_track_i_media_range n_pos n_neg n_total)
      as (i_media & Hi & Hb).
    destruct (calculate_v_vol_value fsqrt fsqrt_nonneg monthly_values None)
      as (v_vol & Hv & Hnn).
    destruct (calculate_m_stab_below i_media v_vol (proj1 Hb) Hnn)
      as (m_stab & Hm & Hmb).
    exists i_media, v_vol, m_stab. repeat split; trivial; lra.
Qed.

Lemma media_stability_bounded_witness :
  exists i_media v_vol m_stab,
    calculate_i_media 45000 45000 = Some i_media
    /\ calculate_v_vol floor_sqrt [3900; 4100; 3800] (Some 45000)
       = Some v_vol
    /\ calculate_m_stab i_media v_vol = Some m_stab
    /\ 0 <= m_stab <= i_media /\ i_media <= 100.
Proof.
  apply (proj1 (media_stability_bounded floor_sqrt floor_sqrt_nonneg
                  [3900; 4100; 3800])).
Defined.








(** ** Core index and baseline score *)




Lemma calculate_s_rep_bounded (v_hr r_transp r_inst : Q) :
  0 <= v_hr <= 100 -> 0 <= r_transp <= 100 -> 0 <= r_inst <= 100 ->
  0 <= calculate_s_rep v_hr r_transp r_inst <= 100.
Proof.
  intros Hv Ht Hi.
  pose proof (calculate_s_rep_mean v_hr r_transp r_inst). lra.
Qed.




(** ** Efficiency multipliers *)

Lemma calculate_roi_eq (revenue costs : Q) :
  0 < costs ->
  calculate_roi revenue costs = Some ((revenue - costs) / costs * 100).
Proof.
  intros Hc. unfold calculate_roi.
  destruct (Qle_bool costs 0) eqn:E; [apply Qle_bool_iff in E; lra|].
  rewrite fdiv_nonzero by lra. reflexivity.
Qed.

Lemma ratio_positive (a d : Q) : 0 < d -> (0 < a / d * 100 <-> 0 < a).
Proof.
  intros Hd. split; intros H.
  - assert (Ha : a == a / d * d) by (field; lra).
    rewrite Ha. set (q := a / d) in *. nra.
  - assert (0 < a / d) by (apply Qlt_shift_div_l; lra). lra.
Qed.

(** X10.  [calculate_roi] and [calculate_sroi] always have a value (costs that
    are zero or negative give 0 instead of a division), and the bonus that
    follows is all or nothing: 0.05 (for SROI 0.10) exactly when the costs
    are positive and the revenue (the social value) exceeds them, 0
    otherwise, break-even included. *)
Theorem return_bonus (value costs : Q) :
  exists roi sroi,
    calculate_roi value costs = Some roi
    /\ calculate_sroi value costs = Some sroi
    /\ (0 < costs /\ costs < value ->
        get_k_roi roi = 0.05 /\ get_k_sroi sroi = 0.10)
    /\ (~ (0 < costs /\ costs < value) ->
        get_k_roi roi = 0.0 /\ get_k_sroi sroi = 0.0).
Proof.
  change (calculate_sroi value costs) with (calculate_roi value costs).
  destruct (Qlt_le_dec 0 costs) as [Hc|Hc].
  - rewrite (calculate_roi_eq value costs Hc).
    do 2 eexists. split; [reflexivity|]. split; [reflexivity|].
    pose proof (ratio_positive (value - costs) costs Hc) as Hp.
    unfold get_k_roi, get_k_sroi. split.
    + intros [_ Hv].
      assert (E : Qltb 0 ((value - costs) / costs * 100) = true)
        by (apply Qltb_lt, Hp; lra).
      rewrite E. split; reflexivity.
    + intros Hn.
      assert (E : Qltb 0 ((value - costs) / costs * 100) = false).
      { apply not_true_iff_false. rewrite Qltb_lt, Hp. intros Hv.
        apply Hn. split; lra. }
      rewrite E. split; reflexivity.
  - unfold calculate_roi. pose proof Hc as Hb. apply Qle_bool_iff in Hb.
    rewrite Hb. do 2 eexists. split; [reflexivity|]. split; [reflexivity|].
    split; [intros [H _]; lra | intros _; split; reflexivity].
Qed.

Lemma return_bonus_witness :
  (exists roi sroi,
      calculate_roi 520 450 = Some roi
      /\ calculate_sroi 520 450 = Some sroi
      /\ get_k_roi roi = 0.05 /\ get_k_sroi sroi = 0.10)
  /\ (exists roi sroi,
        calculate_roi 450 450 = Some roi
        /\ calculate_sroi 450 450 = Some sroi
        /\ get_k_roi roi = 0.0 /\ get_k_sroi sroi = 0.0).
Proof.
  split.
  - destruct (return_bonus 520 450) as (roi & sroi & Hr & Hs & Hyes & _).
    exists roi, sroi. split; [exact Hr|]. split; [exact Hs|].
    apply Hyes. split; reflexivity.
  - destruct (return_bonus 450 450) as (roi & sroi & Hr & Hs & _ & Hno).
    exists roi, sroi. split; [exact Hr|]. split; [exact Hs|].
    apply Hno. intros [_ H]. discriminate H.
Defined.






(** ** Rating scale *)

(** X13.  The rating never falls when the score rises: the five bands are met
    in order along the scale, and the five levels are distinct. *)
Theorem get_quality_rating_monotone (value1 value2 : Q) :
  value1 <= value2 ->
  (rating_rank (get_quality_rating value1)
   <= rating_rank (get_quality_rating value2))%nat.
Proof.
  intros Hv. unfold get_quality_rating.
  by_cases; try lra; vm_compute; repeat constructor.
Qed.

Lemma get_quality_rating_monotone_witness :
  (rating_rank (get_quality_rating 75.9999)
   <= rating_rank (get_quality_rating 76))%nat.
Proof.
  apply (get_quality_rating_monotone 75.9999 76). discriminate.
Defined.

Lemma rating_rank_levels :
  map rating_rank [critically_low; low; medium; high; very_high]
  = [0; 1; 2; 3; 4]%nat.
Proof.
  reflexivity.
Qed.

(** X14.  The stored 'rating_e' is absent not only when the extended contour is
    off but also when the extended score is exactly 0, which is what a
    baseline score of 0 gives under every multiplier; any other extended
    score is stored with its level. *)
Theorem rating_e_absent (iseec_e : option Q) :
  (rating_e iseec_e = None
   <-> iseec_e = None \/ exists e, iseec_e = Some e /\ e == 0)
  /\ (forall e, iseec_e = Some e -> ~ e == 0 ->
        rating_e iseec_e = Some (fst (fst (get_quality_rating e))))
  /\ (forall k_eff, rating_e (Some (calculate_iseec_e 0 k_eff)) = None).
Proof.
  split; [|split].
  - destruct iseec_e as [e|]; cbn [rating_e].
    + destruct (Qeq_bool e 0) eqn:E; cbn [negb].
      * apply Qeq_bool_iff in E. split; [|reflexivity].
        intros _. right. exists e. split; [reflexivity | exact E].
      * split; [discriminate|]. intros [H|(e' & H & He)]; [discriminate|].
        injection H as <-. apply Qeq_bool_iff in He. congruence.
    + split; [intros _; now left | reflexivity].
  - intros e -> He. cbn [rating_e].
    destruct (Qeq_bool e 0) eqn:E; [|reflexivity].
    apply Qeq_bool_iff in E. contradiction.
  - intros k_eff. cbn [rating_e].
    assert (E : Qeq_bool (calculate_iseec_e 0 k_eff) 0 = true).
    { apply Qeq_bool_iff. unfold calculate_iseec_e. ring. }
    now rewrite E.
Qed.

Lemma rating_e_absent_witness :
  rating_e (Some 80.5) = Some (fst (fst (get_quality_rating 80.5))).
Proof.
  apply (proj1 (proj2 (rating_e_absent (Some 80.5))) 80.5);
    [reflexivity | discriminate].
Defined.


(** ** Industry registry: [determine_industry_by_okved] *)

Lemma startswith_cons (a : Ascii.ascii) (prefix okved : string) :
  startswith okved (String a prefix) = true ->
  exists rest, okved = String a rest /\ startswith rest prefix = true.
Proof.
  unfold startswith. destruct okved as [|b rest]; cbn; [discriminate|].
  destruct (Ascii.ascii_dec a b) as [<-|]; [eauto | discriminate].
Qed.

(** From a test that succeeded, the characters the code starts with. *)
Ltac starts_with H :=
  repeat match type of H with
    | startswith _ (String _ _) = true =>
        let rest := fresh "rest" in
        let E := fresh "E" in
        apply startswith_cons in H; destruct H as (rest & E & H);
        try subst
    end.

Lemma determine_industry_by_okved_match (okved name : string) :
  determine_industry_by_okved okved = name ->
  name = other_industry
  \/ exists data,
       In (name, data) INDUSTRY_DATA
       /\ existsb (startswith okved) (okved_prefixes data) = true.
Proof.
  unfold determine_industry_by_okved.
  destruct (String.eqb okved EmptyString); [now left|].
  destruct (find _ INDUSTRY_DATA) as [[industry data]|] eqn:E;
    [|now left].
  intros <-. right. exists data. apply find_some in E. exact E.
Qed.

Lemma industry_data_registered :
  Forall (fun item =>
            industry_data (fst item) = Some (snd item)
            /\ (0 < x_ref (snd item))%Z
            /\ (k_risk (snd item) == 1 \/ k_risk (snd item) == 1.10))
    INDUSTRY_DATA.
Proof.
  repeat (constructor;
          [split; [vm_compute; reflexivity|];
           split; [reflexivity|];
           first [left; reflexivity | right; reflexivity]|]).
  constructor.
Qed.

(** X15.  Whatever the code, the industry found is a key of [INDUSTRY_DATA]:
    looking it up never fails, and its calibration has a positive
    reference and a risk multiplier of 1 or 1.10. *)
Theorem determine_industry_by_okved_registered (okved : string) :
  exists data,
    industry_data (determine_industry_by_okved okved) = Some data
    /\ (0 < x_ref data)%Z
    /\ (k_risk data == 1 \/ k_risk data == 1.10).
Proof.
  pose proof industry_data_registered as Hreg.
  rewrite Forall_forall in Hreg.
  destruct (determine_industry_by_okved_match okved _ eq_refl)
    as [->|(data & Hin & _)].
  - eexists. split; [vm_compute; reflexivity|].
    split; [reflexivity | left; reflexivity].
  - exists data. apply (Hreg _ Hin).
Qed.

(** The industry of a code whose first characters are known, up to the
    test [H] that is left. *)
Ltac resolve_industry H :=
  unfold determine_industry_by_okved, startswith in *; cbn; rewrite H.

Lemma registered_entry (name : string) (data : industry) :
  In (name, data) INDUSTRY_DATA -> industry_data name = Some data.
Proof.
  intros Hin. pose proof industry_data_registered as Hreg.
  rewrite Forall_forall in Hreg. apply (Hreg _ Hin).
Qed.

(** X16.  Codes of class 11 all go to the agro-industrial complex, whose prefix
    "11" is tried before the prefix "11.0" of the alcohol industry: no code
    at all is resolved to the alcohol industry. *)
Theorem determine_industry_by_okved_alcohol (okved : string) :
  (startswith okved "11" = true ->
   determine_industry_by_okved okved = "Агропромышленный комплекс"%string)
  /\ determine_industry_by_okved okved <> "Алкогольная промышленность"%string.
Proof.
  assert (H11 : startswith okved "11" = true ->
                determine_industry_by_okved okved
                = "Агропромышленный комплекс"%string).
  { intros H. starts_with H. now resolve_industry H. }
  split; [exact H11|].
  intros Hd.
  destruct (determine_industry_by_okved_match okved _ Hd)
    as [Ho|(data & Hin & Hp)]; [discriminate Ho|].
  apply registered_entry in Hin. vm_compute in Hin.
  injection Hin as <-. cbn [okved_prefixes existsb] in Hp.
  rewrite orb_false_r in Hp.
  assert (H : startswith okved "11" = true).
  { starts_with Hp. unfold startswith. cbn.
    now destruct rest0. }
  rewrite (H11 H) in Hd. discriminate Hd.
Qed.

Lemma determine_industry_by_okved_alcohol_witness :
  determine_industry_by_okved "11.01" = "Агропромышленный комплекс"%string.
Proof.
  apply (proj1 (determine_industry_by_okved_alcohol "11.01")). reflexivity.
Defined.

(** X17.  Codes of class 21 go to the chemical industry, which is tried first;
    pharmaceuticals and medicine is found exactly for the codes that start
    with 86. *)
Theorem determine_industry_by_okved_pharma (okved : string) :
  (startswith okved "21" = true ->
   determine_industry_by_okved okved = "Химическая промышленность"%string)
  /\ (determine_industry_by_okved okved = "Фармацевтика и медицина"%string
      <-> startswith okved "86" = true).
Proof.
  assert (H21 : startswith okved "21" = true ->
                determine_industry_by_okved okved
                = "Химическая промышленность"%string).
  { intros H. starts_with H. now resolve_industry H. }
  split; [exact H21|]. split.
  - intros Hd.
    destruct (determine_industry_by_okved_match okved _ Hd)
      as [Ho|(data & Hin & Hp)]; [discriminate Ho|].
    apply registered_entry in Hin. vm_compute in Hin.
    injection Hin as <-. cbn [okved_prefixes existsb] in Hp.
    rewrite orb_false_r in Hp. apply orb_true_iff in Hp.
    destruct Hp as [Hp|Hp]; [|exact Hp].
    rewrite (H21 Hp) in Hd. discriminate Hd.
  - intros H. starts_with H. now resolve_industry H.
Qed.

Lemma determine_industry_by_okved_pharma_witness :
  determine_industry_by_okved "21.20" = "Химическая промышленность"%string
  /\ determine_industry_by_okved "86.10" = "Фармацевтика и медицина"%string.
Proof.
  split.
  - apply (proj1 (determine_industry_by_okved_pharma "21.20")). reflexivity.
  - apply (proj2 (determine_industry_by_okved_pharma "86.10")). reflexivity.
Defined.

(** X18.  Among the codes of class 24, those that start with 24.46 go to
    nuclear energy, which is tried before metallurgy, and all the others
    go to metallurgy and mining. *)
Theorem determine_industry_by_okved_nuclear (okved : string) :
  startswith okved "24" = true ->
  determine_industry_by_okved okved
  = if startswith okved "24.46" then "Атомная энергетика"%string
    else "Металлургия и горнодобыча"%string.
Proof.
  intros H. destruct (startswith okved "24.46") eqn:E.
  - clear H. starts_with E. now resolve_industry E.
  - starts_with H. unfold determine_industry_by_okved, startswith in *.
    cbn in E |- *. rewrite E, H. reflexivity.
Qed.

Lemma determine_industry_by_okved_nuclear_witness :
  determine_industry_by_okved "24.10"
  = if startswith "24.10" "24.46" then "Атомная энергетика"%string
    else "Металлургия и горнодобыча"%string.
Proof.
  apply (determine_industry_by_okved_nuclear "24.10"). reflexivity.
Defined.

Lemma find_all_false {A : Type} (f : A -> bool) (l : list A) :
  (forall x, In x l -> f x = false) -> find f l = None.
Proof.
  induction l as [|a l IH]; intros H; [reflexivity|].
  cbn. rewrite (H a (or_introl eq_refl)). apply IH.
  intros x Hx. apply H. now right.
Qed.

Lemma no_prefix_matches (okved : string) :
  forallb (fun prefix => negb (startswith okved prefix)) all_prefixes = true
  <-> forall item, In item INDUSTRY_DATA ->
        existsb (startswith okved) (okved_prefixes (snd item)) = false.
Proof.
  unfold all_prefixes. rewrite forallb_forall. split.
  - intros H item Hin. apply not_true_iff_false. intros He.
    apply existsb_exists in He. destruct He as (prefix & Hp & Hs).
    assert (Hf : In prefix (flat_map (fun item => okved_prefixes (snd item))
                              INDUSTRY_DATA))
      by (apply in_flat_map; eauto).
    apply H in Hf. rewrite Hs in Hf. discriminate.
  - intros H prefix Hp. apply in_flat_map in Hp.
    destruct Hp as (item & Hin & Hp). apply negb_true_iff.
    apply not_true_iff_false. intros Hs.
    specialize (H item Hin). apply not_true_iff_false in H. apply H.
    apply existsb_exists. eauto.
Qed.

(** X19.  The default industry is the answer exactly when no prefix of the
    registry starts the code, which includes the empty code and every code
    of a class the registry does not list. *)
Theorem determine_industry_by_okved_fallback (okved : string) :
  determine_industry_by_okved okved = other_industry
  <-> forallb (fun prefix => negb (startswith okved prefix)) all_prefixes
      = true.
Proof.
  rewrite no_prefix_matches. split.
  - intros Hd item Hin. unfold determine_industry_by_okved in Hd.
    destruct (String.eqb okved EmptyString) eqn:Ee.
    + apply String.eqb_eq in Ee. subst okved.
      revert item Hin. apply no_prefix_matches. reflexivity.
    + destruct (find _ INDUSTRY_DATA) as [[industry data]|] eqn:E.
      * subst industry. apply find_some in E. destruct E as [Hi Hp].
        apply registered_entry in Hi. vm_compute in Hi.
        injection Hi as <-. discriminate Hp.
      * apply (find_none _ _ E item Hin).
  - intros H. unfold determine_industry_by_okved.
    destruct (String.eqb okved EmptyString); [reflexivity|].
    now rewrite (find_all_false _ _ H).
Qed.

Lemma determine_industry_by_okved_fallback_witness :
  determine_industry_by_okved "99.00" = other_industry
  /\ determine_industry_by_okved "2" = other_industry
  /\ determine_industry_by_okved EmptyString = other_industry.
Proof.
  split; [|split].
  - apply (proj2 (determine_industry_by_okved_fallback "99.00")).
    reflexivity.
  - apply (proj2 (determine_industry_by_okved_fallback "2")). reflexivity.
  - apply (proj2 (determine_industry_by_okved_fallback EmptyString)).
    reflexivity.
Defined.

(** ** Check lists and reputation together *)

Lemma satisfied_points_monotone (ind1 ind2 : list bool) (scores : list Z) :
  Forall2 (fun a b : bool => a = true -> b = true) ind1 ind2 ->
  Forall (fun score => 0 <= score)%Z scores ->
  (satisfied_points ind1 scores <= satisfied_points ind2 scores)%Z.
Proof.
  intros Hi. revert scores.
  induction Hi as [|a b ind1 ind2 Hab _ IH]; intros scores Hs; [reflexivity|].
  destruct Hs as [|score scores Hscore Hs]; [reflexivity|].
  cbn [satisfied_points]. specialize (IH scores Hs).
  destruct a, b; try lia; discriminate (Hab eq_refl).
Qed.

(** X20.  Ticking further criteria never lowers a check-list score: if every
    criterion satisfied in one vector is satisfied in the other, the other
    has at least the same [calculate_r_transp] and, for point values that
    are not negative, at least the same [calculate_r_inst]. *)
Theorem checklist_scores_monotone
    (ind1 ind2 : list bool) (scores : list Z) :
  Forall2 (fun a b : bool => a = true -> b = true) ind1 ind2 ->
  (calculate_r_transp ind1 <= calculate_r_transp ind2)%Z
  /\ (Forall (fun score => 0 <= score)%Z scores ->
      (calculate_r_inst ind1 scores <= calculate_r_inst ind2 scores)%Z).
Proof.
  intros Hi. split.
  - induction Hi as [|a b ind1 ind2 Hab _ IH]; [reflexivity|].
    rewrite !calculate_r_transp_cons.
    destruct a, b; try lia; discriminate (Hab eq_refl).
  - intros Hs. rewrite !calculate_r_inst_min, !r_inst_total_points.
    pose proof (satisfied_points_monotone ind1 ind2 scores Hi Hs). lia.
Qed.

Lemma checklist_scores_monotone_witness :
  (calculate_r_transp [true; false; false]
   <= calculate_r_transp [true; true; false])%Z
  /\ (calculate_r_inst [true; false; false] inst_scores
      <= calculate_r_inst [true; true; false] inst_scores)%Z.
Proof.
  assert (H : Forall2 (fun a b : bool => a = true -> b = true)
                [true; false; false] [true; true; false])
    by (repeat constructor; auto).
  split.
  - apply (proj1 (checklist_scores_monotone _ _ inst_scores H)).
  - apply (proj2 (checklist_scores_monotone _ _ inst_scores H)).
    apply inst_scores_nonneg.
Defined.

Lemma calculate_v_hr_range (rank total : Z) :
  exists v_hr, calculate_v_hr rank total = Some v_hr /\ 0 <= v_hr <= 100.
Proof.
  destruct (Z_lt_le_dec 1 total) as [Ht|Ht].
  - rewrite (calculate_v_hr_eq rank total Ht).
    eexists. split; [reflexivity|]. rewrite py_clamp_eq.
    apply clamp_bounds. lra.
  - unfold calculate_v_hr. apply Z.leb_le in Ht. rewrite Ht.
    exists 0. split; [reflexivity | lra].
Qed.

(** X21.  The reputation subindex computed from a rank, a transparency vector of
    catalog length and any institutional vector with the catalog's point
    values is always defined and lies in [0,100]. *)
Theorem reputation_bounded
    (rank total : Z) (transp_indicators inst_indicators : list bool) :
  length transp_indicators = length TRANSP_CRITERIA ->
  exists v_hr,
    calculate_v_hr rank total = Some v_hr
    /\ 0 <= calculate_s_rep v_hr
              (inject_Z (calculate_r_transp transp_indicators))
              (inject_Z (calculate_r_inst inst_indicators inst_scores))
       <= 100.
Proof.
  intros Hl.
  destruct (calculate_v_hr_range rank total) as (v_hr & Hv & Hb).
  exists v_hr. split; [exact Hv|].
  pose proof (calculate_r_transp_range transp_indicators) as Ht.
  rewrite Hl in Ht. cbn [length TRANSP_CRITERIA Z.of_nat] in Ht.
  pose proof (calculate_r_inst_range inst_indicators inst_scores
                inst_scores_nonneg) as Hi.
  apply calculate_s_rep_bounded; [exact Hb| |].
  - change 0 with (inject_Z 0). change 100 with (inject_Z 100).
    rewrite <- !Zle_Qle. cbn in Ht. lia.
  - change 0 with (inject_Z 0). change 100 with (inject_Z 100).
    rewrite <- !Zle_Qle. lia.
Qed.

Lemma reputation_bounded_witness :
  exists v_hr,
    calculate_v_hr 45 700 = Some v_hr
    /\ 0 <= calculate_s_rep v_hr
              (inject_Z (calculate_r_transp (repeat true 10)))
              (inject_Z (calculate_r_inst (repeat true 13) inst_scores))
       <= 100.
Proof.
  apply (reputation_bounded 45 700 (repeat true 10) (repeat true 13)).
  reflexivity.
Defined.

(** ** Recommendations: how many and which *)

Lemma transp_gaps_length (transp_indicators : list bool) :
  length (transp_gaps transp_indicators)
  = count_occ bool_dec
      (firstn (length TRANSP_CRITERIA) transp_indicators) false.
Proof.
  unfold transp_gaps. generalize TRANSP_CRITERIA as labels.
  induction transp_indicators as [|done indicators IH]; intros [|label labels];
    try reflexivity.
  cbn [combine flat_map length firstn count_occ].
  rewrite length_app, IH. destruct done; cbn [length].
  - destruct (bool_dec true false); [discriminate | reflexivity].
  - destruct (bool_dec false false); [reflexivity | congruence].
Qed.

Lemma inst_gaps_length (inst_indicators : list bool) :
  length (inst_gaps inst_indicators)
  = count_occ bool_dec
      (firstn (length INST_CRITERIA) inst_indicators) false.
Proof.
  unfold inst_gaps. generalize INST_CRITERIA as criteria.
  induction inst_indicators as [|done indicators IH];
    intros [|[label score] criteria]; try reflexivity.
  cbn [combine flat_map length firstn count_occ].
  rewrite length_app, IH. destruct done; cbn [length].
  - destruct (bool_dec true false); [discriminate | reflexivity].
  - destruct (bool_dec false false); [reflexivity | congruence].
Qed.

(** X23.  The number of recommendations: one for each False among the first ten
    transparency indicators and the first thirteen institutional ones (an
    indicator past the catalog is ignored, a criterion without indicator
    is never recommended), one for each weak subindex, cut at five.  So
    the list is empty exactly when no such indicator is False and both
    subindices are at least 50. *)
Theorem generate_recommendations_count
    (transp_indicators inst_indicators : list bool) (inst_scores : list Z)
    (v_hr m_stab : Q) :
  length (generate_recommendations transp_indicators inst_indicators
            inst_scores v_hr m_stab)
  = Nat.min 5
      (count_occ bool_dec (firstn 10 transp_indicators) false
       + count_occ bool_dec (firstn 13 inst_indicators) false
       + (if Qltb v_hr 50 then 1 else 0)
       + (if Qltb m_stab 50 then 1 else 0))%nat
  /\ (generate_recommendations transp_indicators inst_indicators
        inst_scores v_hr m_stab = []
      <-> ~ In false (firstn 10 transp_indicators)
          /\ ~ In false (firstn 13 inst_indicators)
          /\ 50 <= v_hr /\ 50 <= m_stab).
Proof.
  assert (Hlen : length (generate_recommendations transp_indicators
                           inst_indicators inst_scores v_hr m_stab)
                 = Nat.min 5
                     (count_occ bool_dec (firstn 10 transp_indicators) false
                      + count_occ bool_dec (firstn 13 inst_indicators) false
                      + (if Qltb v_hr 50 then 1 else 0)
                      + (if Qltb m_stab 50 then 1 else 0))%nat).
  { unfold generate_recommendations. cbv zeta. rewrite length_firstn.
    rewrite <- (Permutation_length (sort_by_key_perm _ sort_key _)).
    unfold collect_recommendations.
    rewrite !length_app, transp_gaps_length, inst_gaps_length.
    change (length TRANSP_CRITERIA) with 10%nat.
    change (length INST_CRITERIA) with 13%nat.
    destruct (Qltb v_hr 50), (Qltb m_stab 50); cbn [length]; lia. }
  split; [exact Hlen|].
  rewrite <- length_zero_iff_nil, Hlen, <- !Qltb_ge.
  rewrite !(count_occ_not_In bool_dec).
  destruct (Qltb v_hr 50), (Qltb m_stab 50); split;
    try (intros (? & ? & ? & ?); try discriminate; lia); intros H;
    repeat split; try reflexivity; lia.
Qed.

Lemma generate_recommendations_count_witness :
  generate_recommendations (repeat true 10) (repeat true 13) inst_scores
    93.7 100 = [].
Proof.
  apply (proj2 (proj2 (generate_recommendations_count
                         (repeat true 10) (repeat true 13) inst_scores
                         93.7 100))).
  repeat split; try discriminate; cbn; intuition discriminate.
Defined.

Lemma inst_criteria_scores :
  Forall (fun criterion => snd criterion = 5%Z \/ snd criterion = 10%Z)
    INST_CRITERIA.
Proof.
  repeat (constructor; [first [left; reflexivity | right; reflexivity]|]).
  constructor.
Qed.

Lemma transp_gaps_entries (transp_indicators : list bool)
    (r : recommendation) :
  In r (transp_gaps transp_indicators) ->
  In (action r) TRANSP_CRITERIA /\ potential r = 10%Z /\ priority r = 2%Z.
Proof.
  unfold transp_gaps. intros Hr. apply in_flat_map in Hr.
  destruct Hr as ([done label] & Hin & Hr).
  destruct done; [contradiction|]. destruct Hr as [<-|[]].
  apply in_combine_r in Hin. cbn. auto.
Qed.

Lemma inst_gaps_entries (inst_indicators : list bool) (r : recommendation) :
  In r (inst_gaps inst_indicators) ->
  In (action r, potential r) INST_CRITERIA
  /\ ((potential r = 10%Z /\ priority r = 2%Z)
      \/ (potential r = 5%Z /\ priority r = 3%Z)).
Proof.
  unfold inst_gaps. intros Hr. apply in_flat_map in Hr.
  destruct Hr as ([[label score] done] & Hin & Hr).
  destruct done; [contradiction|]. destruct Hr as [<-|[]].
  apply in_combine_l in Hin. cbn [action potential priority].
  split; [exact Hin|].
  pose proof inst_criteria_scores as Hs. rewrite Forall_forall in Hs.
  destruct (Hs _ Hin) as [H|H]; cbn [snd] in H; subst score; cbn; auto.
Qed.

(** X24.  Every entry of the result is one of four kinds: the employer-brand
    entry (priority 1, 50 points), the media entry (priority 1, 30
    points), a transparency criterion of the catalog (priority 2, 10
    points), or an institutional criterion of the catalog with its own
    point value (priority 2 for 10 points, priority 3 for 5 points).  The
    potential is thus always positive and the priority tells the
    potential class. *)
Theorem generate_recommendations_entries
    (transp_indicators inst_indicators : list bool) (inst_scores : list Z)
    (v_hr m_stab : Q) (r : recommendation) :
  In r (generate_recommendations transp_indicators inst_indicators
          inst_scores v_hr m_stab) ->
  (r = hr_recommendation
   \/ r = media_recommendation
   \/ (In (action r) TRANSP_CRITERIA
       /\ potential r = 10%Z /\ priority r = 2%Z)
   \/ (In (action r, potential r) INST_CRITERIA
       /\ ((potential r = 10%Z /\ priority r = 2%Z)
           \/ (potential r = 5%Z /\ priority r = 3%Z))))
  /\ (0 < potential r)%Z
  /\ (priority r = 3%Z <-> potential r = 5%Z)
  /\ (priority r = 1%Z <-> (30 <= potential r)%Z).
Proof.
  intros Hr. apply generate_recommendations_members in Hr.
  assert (Hkind :
            r = hr_recommendation
            \/ r = media_recommendation
            \/ (In (action r) TRANSP_CRITERIA
                /\ potential r = 10%Z /\ priority r = 2%Z)
            \/ (In (action r, potential r) INST_CRITERIA
                /\ ((potential r = 10%Z /\ priority r = 2%Z)
                    \/ (potential r = 5%Z /\ priority r = 3%Z)))).
  { destruct Hr as [Hr|Hr].
    - apply systemic_members in Hr. destruct Hr as [[-> _]|[-> _]]; auto.
    - unfold checklist_gaps in Hr. apply in_app_iff in Hr.
      destruct Hr as [Hr|Hr].
      + right. right. left. now apply transp_gaps_entries in Hr.
      + right. right. right. now apply inst_gaps_entries in Hr. }
  split; [exact Hkind|].
  destruct Hkind as [->|[->|[(_ & Hp & Hq)|(_ & [(Hp & Hq)|(Hp & Hq)])]]];
    cbn [potential priority hr_recommendation media_recommendation];
    rewrite ?Hp, ?Hq; repeat split; intros; lia.
Qed.

Lemma generate_recommendations_entries_witness :
  (0 < potential hr_recommendation)%Z
  /\ (priority hr_recommendation = 1%Z
      <-> (30 <= potential hr_recommendation)%Z).
Proof.
  destruct (generate_recommendations_entries
              (false :: repeat true 9) (repeat true 13) inst_scores 20 20
              hr_recommendation) as (_ & Hp & _ & H1).
  - left. reflexivity.
  - split; [exact Hp | exact H1].
Defined.

Lemma satisfied_points_app_l (indicators extra : list bool) (scores : list Z) :
  (length scores <= length indicators)%nat ->
  satisfied_points (indicators ++ extra) scores
  = satisfied_points indicators scores.
Proof.
  revert scores. induction indicators as [|ind indicators IH];
    intros [|score scores] Hl; cbn in Hl; try lia.
  - now destruct extra.
  - reflexivity.
  - cbn [app satisfied_points]. rewrite IH; [reflexivity | lia].
Qed.

Lemma satisfied_points_app_r (indicators : list bool) (scores extra : list Z) :
  (length indicators <= length scores)%nat ->
  satisfied_points indicators (scores ++ extra)
  = satisfied_points indicators scores.
Proof.
  revert scores. induction indicators as [|ind indicators IH];
    intros [|score scores] Hl; cbn in Hl; try lia; try reflexivity.
  cbn [app satisfied_points]. rewrite IH; [reflexivity | lia].
Qed.

(** X22.  [calculate_r_inst] checks no lengths: indicators past the last point
    value and point values past the last indicator are ignored, so a
    vector that is too short scores only the criteria it covers and an
    empty one scores 0. *)
Theorem calculate_r_inst_unchecked
    (indicators extra_indicators : list bool) (scores extra_scores : list Z) :
  ((length scores <= length indicators)%nat ->
   calculate_r_inst (indicators ++ extra_indicators) scores
   = calculate_r_inst indicators scores)
  /\ ((length indicators <= length scores)%nat ->
      calculate_r_inst indicators (scores ++ extra_scores)
      = calculate_r_inst indicators scores)
  /\ calculate_r_inst [] scores = 0%Z.
Proof.
  rewrite !calculate_r_inst_min, !r_inst_total_points.
  split; [|split].
  - intros Hl. now rewrite satisfied_points_app_l.
  - intros Hl. now rewrite satisfied_points_app_r.
  - reflexivity.
Qed.

Lemma calculate_r_inst_unchecked_witness :
  calculate_r_inst (repeat true 13 ++ [true; true]) inst_scores
  = calculate_r_inst (repeat true 13) inst_scores
  /\ calculate_r_inst [true; true] ([10; 10] ++ [5; 5])%Z
     = calculate_r_inst [true; true] [10; 10]%Z.
Proof.
  split.
  - apply (proj1 (calculate_r_inst_unchecked (repeat true 13) [true; true]
                    inst_scores [])).
    cbn. lia.
  - apply (proj1 (proj2 (calculate_r_inst_unchecked [true; true] []
                           [10; 10]%Z [5; 5]%Z))).
    cbn. lia.
Defined.

(** ** The sort, whatever the algorithm *)

(** X25.  The list [recommendations.sort(key=...)] leaves is determined by two
    facts: it is ordered by the key, and entries with the same key stand
    in the order they had.  Any list with these two properties is the list
    [sort_by_key] computes. *)
Theorem sort_by_key_determined
    (recommendations sorted : list recommendation) :
  StronglySorted (key_le sort_key) sorted ->
  (forall k, filter (same_key sort_key k) sorted
             = filter (same_key sort_key k) recommendations) ->
  sorted = sort_by_key sort_key recommendations.
Proof.
  apply sort_by_key_unique.
Qed.

Lemma sort_by_key_determined_witness :
  [hr_recommendation; media_recommendation]
  = sort_by_key sort_key [hr_recommendation; media_recommendation].
Proof.
  apply sort_by_key_determined.
  - repeat constructor.
  - intros k. reflexivity.
Defined.
